(** * Verification of the ts-lox scanner (src/scanner.ts)

    A shallow embedding of the [Scanner] class: the cursor pair, the line
    counter, the token list, the calls made to [Lox.error], and the indices
    handed to [String.prototype.charAt].  Every method of the class is a
    function on the record [Scanner]; the [while] loops run on a fuel that
    is proved to be more than the loop ever needs.

    Modelling choices.  A JavaScript string is a [String.string]; its
    characters stand for the code units of the source, so the model covers
    sources whose code units are below 256 (the scanner treats every other
    code unit like the unrecognised characters of that range).  One-
    character strings are compared as the code compares them, with
    [String.eqb] and [String.leb].  The numbers [start], [current] and
    [line] only ever hold small non-negative integers and are [nat].  The
    [literal] of a [NUMBER] is a binary64 value of [SpecFloat]. *)

From Stdlib Require Import Bool Arith Lia List ZArith Ascii String.
From Stdlib Require Import Floats.SpecFloat.
Import ListNotations.
Local Open Scope string_scope.

(** ** Characters that have no printable notation *)

Definition NUL : String.string := String "000"%char EmptyString.
Definition TAB : String.string := String "009"%char EmptyString.
Definition LF : String.string := String "010"%char EmptyString.
Definition CR : String.string := String "013"%char EmptyString.
Definition DQUOTE : String.string := String "034"%char EmptyString.

(** ** Token types, tokens, literals *)

(** Modelled from the spec: the enumeration of token_type.ts, which is not
    among the sources.  The constructors are the members scanner.ts names;
    the spec calls it a closed set of lexical categories with one terminal
    end-of-input marker. *)
Inductive TokenType : Type :=
  | LEFT_PAREN | RIGHT_PAREN | LEFT_BRACE | RIGHT_BRACE
  | COMMA | DOT | MINUS | PLUS | SEMICOLON | SLASH | STAR
  | BANG | BANG_EQUAL | EQUAL | EQUAL_EQUAL
  | GREATER | GREATER_EQUAL | LESS | LESS_EQUAL
  | IDENTIFIER | STRING | NUMBER
  | AND | CLASS | ELSE | FALSE | FUN | FOR | IF | NIL | OR
  | PRINT | RETURN | SUPER | THIS | TRUE | VAR | WHILE
  | EOF.

(** The [literal] argument of [addToken] has type [unknown]; the scanner
    passes [null], a string, or the number [parseFloat] returns.  Numbers
    are IEEE-754 binary64 values, here [spec_float] at precision 53. *)
Inductive Literal : Type :=
  | LNull
  | LString (str : String.string)
  | LNumber (value : spec_float).

(** Modelled from the spec: the [Token] class of token.ts, which is not
    among the sources; a value record with the four constructor arguments
    [new Token(type, lexeme, literal, line)].  Its [line] is [tline] here,
    [line] being the counter of the scanner. *)
Record Token : Type := mkToken {
  type : TokenType;
  lexeme : String.string;
  literal : Literal;
  tline : nat
}.

(** ** The keyword table *)

Definition KEYWORDS : list (String.string * TokenType) :=
  [ ("and", AND); ("class", CLASS); ("else", ELSE); ("false", FALSE);
    ("for", FOR); ("fun", FUN); ("if", IF); ("nil", NIL); ("or", OR);
    ("print", PRINT); ("return", RETURN); ("super", SUPER);
    ("this", THIS); ("true", TRUE); ("var", VAR); ("while", WHILE) ].

(** [Map.prototype.get]: [None] stands for [undefined].  The keys of
    [KEYWORDS] are pairwise distinct, so the first match is the entry. *)
Fixpoint Map_get (m : list (String.string * TokenType)) (key : String.string)
  : option TokenType :=
  match m with
  | [] => None
  | (k, v) :: m' => if String.eqb k key then Some v else Map_get m' key
  end.

(** ** JavaScript string primitives *)

(** [str.charAt(pos)]: the one-character string at [pos], the empty string
    when [pos] is not an index of [str]. *)
Definition charAt (str : String.string) (pos : nat) : String.string :=
  match String.get pos str with
  | Some c => String c EmptyString
  | None => EmptyString
  end.

(** [str.substring(a, b)]: both indices are clamped to the length and
    swapped when [a > b]. *)
Definition substring (str : String.string) (a b : nat) : String.string :=
  let a' := Nat.min a (String.length str) in
  let b' := Nat.min b (String.length str) in
  String.substring (Nat.min a' b') (Nat.max a' b' - Nat.min a' b') str.

(** *** parseFloat

    [number()] hands [parseFloat] a run of decimal digits with at most one
    interior point.  On such text the result is the binary64 value nearest
    to the decimal (ties to even).  The model reads the longest prefix of
    the shape digits, optional point, digits; signs, exponents, leading
    blanks and [Infinity], which the scanner never passes, are left out. *)

Definition prec : Z := 53.
Definition emax : Z := 1024.

Definition digit_value (c : ascii) : option Z :=
  let n := nat_of_ascii c in
  if (48 <=? n)%nat && (n <=? 57)%nat then Some (Z.of_nat (n - 48)) else None.

(** Reads a maximal run of digits: the number read so far, how many digits
    were read, and the rest of the text. *)
Fixpoint read_digits (acc : Z) (cnt : nat) (text : String.string)
  : Z * nat * String.string :=
  match text with
  | EmptyString => (acc, cnt, text)
  | String c text' =>
      match digit_value c with
      | Some d => read_digits (10 * acc + d)%Z (S cnt) text'
      | None => (acc, cnt, text)
      end
  end.

(** The binary64 nearest to [m / 10^k]. *)
Definition decimal_to_float (m : Z) (k : nat) : spec_float :=
  match m with
  | Zpos p =>
      SFdiv prec emax (S754_finite false p 0)
            (S754_finite false (Z.to_pos (10 ^ Z.of_nat k)) 0)
  | _ => S754_zero false
  end.

Definition parseFloat (text : String.string) : spec_float :=
  let '(ip, n1, rest) := read_digits 0 0 text in
  match rest with
  | String "."%char rest' =>
      let '(m, n, _) := read_digits ip n1 rest' in
      match n with
      | O => S754_nan
      | _ => decimal_to_float m (n - n1)
      end
  | _ =>
      match n1 with
      | O => S754_nan
      | _ => decimal_to_float ip 0
      end
  end.

(** ** Scanner state *)

(** The fields of the class, then two logs.  [errors] records the calls
    [Lox.error(line, message)] in order ([Lox] lives in main.ts, which is
    not among the sources; the scanner only calls it).  [reads] records, in
    order, every index passed to [this.source.charAt]. *)
Record Scanner : Type := mkScanner {
  source : String.string;
  tokens : list Token;
  start : nat;
  current : nat;
  line : nat;
  errors : list (nat * String.string);
  reads : list nat
}.

(** [new Scanner(source)]. *)
Definition new_Scanner (src : String.string) : Scanner :=
  mkScanner src [] 0 0 1 [] [].

Definition set_start (n : nat) (s : Scanner) : Scanner :=
  mkScanner (source s) (tokens s) n (current s) (line s) (errors s) (reads s).

Definition set_current (n : nat) (s : Scanner) : Scanner :=
  mkScanner (source s) (tokens s) (start s) n (line s) (errors s) (reads s).

Definition set_line (n : nat) (s : Scanner) : Scanner :=
  mkScanner (source s) (tokens s) (start s) (current s) n (errors s) (reads s).

(** [this.tokens.push(t)]. *)
Definition push_token (t : Token) (s : Scanner) : Scanner :=
  mkScanner (source s) (tokens s ++ [t]) (start s) (current s) (line s)
            (errors s) (reads s).

(** [Lox.error(ln, message)]. *)
Definition Lox_error (ln : nat) (message : String.string) (s : Scanner)
  : Scanner :=
  mkScanner (source s) (tokens s) (start s) (current s) (line s)
            (errors s ++ [(ln, message)]) (reads s).

(** [this.source.charAt(pos)], with the index logged. *)
Definition source_charAt (pos : nat) (s : Scanner) : String.string * Scanner :=
  (charAt (source s) pos,
   mkScanner (source s) (tokens s) (start s) (current s) (line s)
             (errors s) (reads s ++ [pos])).

(** ** Loops *)

(** [while (cond) body], run for at most [fuel] tests of the condition. *)
Fixpoint while_ (fuel : nat) (cond : Scanner -> bool * Scanner)
    (body : Scanner -> Scanner) (s : Scanner) : Scanner :=
  match fuel with
  | O => s
  | S fuel' =>
      let (b, s1) := cond s in
      if b then while_ fuel' cond body (body s1) else s1
  end.

(** Every loop of the scanner moves [current] forward by one per turn and
    stops at the end of the source at the latest, so one more test than
    there are characters left is enough. *)
Definition budget (s : Scanner) : nat :=
  S (String.length (source s) - current s).

(** ** The methods of [Scanner] *)

(** [this.current >= this.source.length]. *)
Definition isAtEnd (s : Scanner) : bool :=
  (String.length (source s) <=? current s)%nat.

Definition peek (s : Scanner) : String.string * Scanner :=
  if isAtEnd s then (NUL, s) else source_charAt (current s) s.

Definition peekNext (s : Scanner) : String.string * Scanner :=
  if (String.length (source s) <=? current s + 1)%nat then (NUL, s)
  else source_charAt (current s + 1) s.

(** [match(expected)]; [match] is a keyword of Rocq. *)
Definition match_ (expected : String.string) (s : Scanner) : bool * Scanner :=
  let (c, s1) := peek s in
  if negb (String.eqb c expected) then (false, s1)
  else (true, set_current (current s1 + 1) s1).

(** [charAt(this.current++)]: reads at the old index, then moves on. *)
Definition advance (s : Scanner) : String.string * Scanner :=
  let (c, s1) := source_charAt (current s) s in
  (c, set_current (current s + 1) s1).

Definition addToken (ty : TokenType) (lit : Literal) (s : Scanner) : Scanner :=
  let text := substring (source s) (start s) (current s) in
  push_token (mkToken ty text lit (line s)) s.

(** The test and the body of the loop of [string()]: while [peek()] is
    not a double quote and the end is not reached, count a line feed under
    the cursor, then [advance()]. *)
Definition string_cond (s : Scanner) : bool * Scanner :=
  let (c, s1) := peek s in
  (negb (String.eqb c DQUOTE) && negb (isAtEnd s1), s1).

Definition string_body (s : Scanner) : Scanner :=
  let (c, s1) := peek s in
  let s2 := if String.eqb c LF then set_line (line s1 + 1) s1 else s1 in
  snd (advance s2).

Definition string (s : Scanner) : Scanner :=
  let s1 := while_ (budget s) string_cond string_body s in
  if isAtEnd s1 then Lox_error (line s1) "unexpected character." s1
  else
    let (_, s2) := advance s1 in
    let str := substring (source s2) (start s2 + 1) (current s2 - 1) in
    addToken STRING (LString str) s2.

Definition isDigit (c : String.string) : bool :=
  String.leb "0" c && String.leb c "9".

(** [while (this.isDigit(this.peek())) this.advance();]. *)
Definition digit_cond (s : Scanner) : bool * Scanner :=
  let (c, s1) := peek s in (isDigit c, s1).

Definition advance_body (s : Scanner) : Scanner := snd (advance s).

Definition number (s : Scanner) : Scanner :=
  let s1 := while_ (budget s) digit_cond advance_body s in
  let (c, s2) := peek s1 in
  let s5 :=
    if String.eqb c "." then
      let (d, s3) := peekNext s2 in
      if isDigit d then
        let (_, s4) := advance s3 in
        while_ (budget s4) digit_cond advance_body s4
      else s3
    else s2 in
  addToken NUMBER
    (LNumber (parseFloat (substring (source s5) (start s5) (current s5)))) s5.

Definition isAlpha (c : String.string) : bool :=
  (String.leb "a" c && String.leb c "z")
  || (String.leb "A" c && String.leb c "Z")
  || String.eqb c "_".

Definition isAlphaNumeric (c : String.string) : bool :=
  isAlpha c || isDigit c.

(** [while (this.isAlphaNumeric(this.peek())) this.advance();]. *)
Definition alnum_cond (s : Scanner) : bool * Scanner :=
  let (c, s1) := peek s in (isAlphaNumeric c, s1).

Definition identifier (s : Scanner) : Scanner :=
  let s1 := while_ (budget s) alnum_cond advance_body s in
  let text := substring (source s1) (start s1) (current s1) in
  let tokenType :=
    match Map_get KEYWORDS text with
    | Some ty => ty
    | None => IDENTIFIER
    end in
  addToken tokenType LNull s1.

(** The test of the loop that skips a comment: [peek()] is not a line
    feed and the end is not reached; its body is [advance()]. *)
Definition comment_cond (s : Scanner) : bool * Scanner :=
  let (c, s1) := peek s in
  (negb (String.eqb c LF) && negb (isAtEnd s1), s1).

(** The four cases [this.addToken(this.match(=) ? two : one)], the
    argument of [match] being the one-character string [=]. *)
Definition operator (two one : TokenType) (s : Scanner) : Scanner :=
  let (m, s1) := match_ "=" s in
  addToken (if m then two else one) LNull s1.

(** The [switch] of [scanToken], case by case in the order of the code. *)
Definition scanToken (s0 : Scanner) : Scanner :=
  let (c, s) := advance s0 in
  if String.eqb c "(" then addToken LEFT_PAREN LNull s
  else if String.eqb c ")" then addToken RIGHT_PAREN LNull s
  else if String.eqb c "{" then addToken LEFT_BRACE LNull s
  else if String.eqb c "}" then addToken RIGHT_BRACE LNull s
  else if String.eqb c "," then addToken COMMA LNull s
  else if String.eqb c "." then addToken DOT LNull s
  else if String.eqb c "-" then addToken MINUS LNull s
  else if String.eqb c "+" then addToken PLUS LNull s
  else if String.eqb c ";" then addToken SEMICOLON LNull s
  else if String.eqb c "*" then addToken STAR LNull s
  else if String.eqb c "!" then operator BANG_EQUAL BANG s
  else if String.eqb c "=" then operator EQUAL_EQUAL EQUAL s
  else if String.eqb c "<" then operator LESS_EQUAL LESS s
  else if String.eqb c ">" then operator GREATER_EQUAL GREATER s
  else if String.eqb c "/" then
    let (m, s1) := match_ "/" s in
    if m then while_ (budget s1) comment_cond advance_body s1
    else addToken SLASH LNull s1
  else if String.eqb c " " || String.eqb c CR || String.eqb c TAB then s
  else if String.eqb c LF then set_line (line s + 1) s
  else if String.eqb c DQUOTE then string s
  else if isDigit c then number s
  else if isAlpha c then identifier s
  else Lox_error (line s) "Unexpected character." s.

(** The loop of [scanTokens]:
    [while (!this.isAtEnd()) { this.start = this.current; this.scanToken(); }]. *)
Definition main_cond (s : Scanner) : bool * Scanner := (negb (isAtEnd s), s).

Definition main_body (s : Scanner) : Scanner :=
  scanToken (set_start (current s) s).

(** The state in which [scanTokens] returns. *)
Definition scanTokens_run (s : Scanner) : Scanner :=
  let s1 := while_ (budget s) main_cond main_body s in
  push_token (mkToken EOF "" LNull (line s1)) s1.

Definition scanTokens (s : Scanner) : list Token :=
  tokens (scanTokens_run s).

(** [new Scanner(src).scanTokens()]. *)
Definition scan (src : String.string) : list Token :=
  scanTokens (new_Scanner src).


(** ** Specification vocabulary *)

(** The big-step meaning of [while (cond) body], with no fuel: a derivation
    exists exactly when the loop comes to an end. *)
Inductive while_rel (cond : Scanner -> bool * Scanner)
    (body : Scanner -> Scanner) : Scanner -> Scanner -> Prop :=
  | while_exit : forall s s1,
      cond s = (false, s1) -> while_rel cond body s s1
  | while_turn : forall s s1 s',
      cond s = (true, s1) -> while_rel cond body (body s1) s' ->
      while_rel cond body s s'.

(** Appending to the log of [charAt] indices. *)
Definition log_reads (l : list nat) (s : Scanner) : Scanner :=
  mkScanner (source s) (tokens s) (start s) (current s) (line s)
            (errors s) (reads s ++ l).

Fixpoint drop (n : nat) (str : String.string) : String.string :=
  match n, str with
  | O, _ => str
  | S n', String _ str' => drop n' str'
  | S _, EmptyString => EmptyString
  end.

Fixpoint take (n : nat) (str : String.string) : String.string :=
  match n, str with
  | O, _ => EmptyString
  | S n', String c str' => String c (take n' str')
  | S _, EmptyString => EmptyString
  end.

(** Number of line feeds in a text. *)
Fixpoint count_nl (str : String.string) : nat :=
  match str with
  | EmptyString => 0
  | String c str' =>
      (if Ascii.eqb c "010"%char then 1 else 0) + count_nl str'
  end.

Fixpoint all_chars (p : ascii -> bool) (str : String.string) : bool :=
  match str with
  | EmptyString => true
  | String c str' => p c && all_chars p str'
  end.

(** Length of the longest prefix whose characters all satisfy [p]. *)
Fixpoint run_length (p : ascii -> bool) (str : String.string) : nat :=
  match str with
  | EmptyString => 0
  | String c str' => if p c then S (run_length p str') else 0
  end.

(** [true] when the text is empty or its first character fails [p]. *)
Definition stops (p : ascii -> bool) (str : String.string) : bool :=
  match str with
  | EmptyString => true
  | String c _ => negb (p c)
  end.

Definition is_digit (c : ascii) : bool :=
  (48 <=? nat_of_ascii c)%nat && (nat_of_ascii c <=? 57)%nat.

Definition is_alpha (c : ascii) : bool :=
  ((97 <=? nat_of_ascii c)%nat && (nat_of_ascii c <=? 122)%nat)
  || ((65 <=? nat_of_ascii c)%nat && (nat_of_ascii c <=? 90)%nat)
  || (nat_of_ascii c =? 95)%nat.

Definition is_alnum (c : ascii) : bool := is_alpha c || is_digit c.

Definition not_char (x : ascii) (c : ascii) : bool := negb (Ascii.eqb c x).

(** What one turn of the main loop did with the characters it consumed. *)
Inductive SegKind : Type :=
  | KToken (t : Token)
  | KBlank
  | KNewline
  | KComment
  | KError (ln : nat) (message : String.string).

(** A span [seg_start, seg_end) of the source and what became of it. *)
Record Segment : Type := mkSegment {
  seg_start : nat;
  seg_end : nat;
  seg_kind : SegKind
}.

Definition seg_text (src : String.string) (g : Segment) : String.string :=
  substring src (seg_start g) (seg_end g).

Fixpoint seg_tokens (segs : list Segment) : list Token :=
  match segs with
  | [] => []
  | g :: segs' =>
      match seg_kind g with
      | KToken t => t :: seg_tokens segs'
      | _ => seg_tokens segs'
      end
  end.

Fixpoint seg_errors (segs : list Segment) : list (nat * String.string) :=
  match segs with
  | [] => []
  | g :: segs' =>
      match seg_kind g with
      | KError ln msg => (ln, msg) :: seg_errors segs'
      | _ => seg_errors segs'
      end
  end.

(** The segments tile [a, b): each is non-empty and starts where the one
    before it ends. *)
Fixpoint chained (a : nat) (segs : list Segment) (b : nat) : Prop :=
  match segs with
  | [] => a = b
  | g :: segs' =>
      seg_start g = a /\ a < seg_end g /\ chained (seg_end g) segs' b
  end.

(** The line the counter shows once the first [n] characters are consumed. *)
Definition line_after (src : String.string) (n : nat) : nat :=
  1 + count_nl (substring src 0 n).

Definition seg_ok (src : String.string) (g : Segment) : Prop :=
  match seg_kind g with
  | KToken t =>
      lexeme t = seg_text src g
      /\ tline t = line_after src (seg_end g)
      /\ type t <> EOF
      /\ (type t <> STRING -> count_nl (lexeme t) = 0)
      /\ count_nl (substring src (seg_end g - 1) (seg_end g)) = 0
  | KBlank =>
      seg_text src g = " " \/ seg_text src g = CR \/ seg_text src g = TAB
  | KNewline => seg_text src g = LF
  | KComment =>
      String.prefix "//" (seg_text src g) = true
      /\ count_nl (seg_text src g) = 0
  | KError ln msg => ln = line_after src (seg_end g)
  end.

Definition is_error (g : Segment) : bool :=
  match seg_kind g with
  | KError _ _ => true
  | _ => false
  end.

(** Token lines never go down along the list. *)
Fixpoint lines_sorted (l : list Token) : Prop :=
  match l with
  | [] => True
  | t :: l' =>
      match l' with
      | [] => True
      | t' :: _ => tline t <= tline t'
      end /\ lines_sorted l'
  end.

(** The state in which a loop over the [p]-characters under the cursor
    ends: the cursor after the run, the line feeds of the run counted when
    the loop counts them, and the indices [L] added to the log. *)
Definition loop_result (p : ascii -> bool) (bump : bool) (s : Scanner)
    (L : list nat) : Scanner :=
  let run := run_length p (drop (current s) (source s)) in
  log_reads L
    (set_line
       (line s + if bump
                 then count_nl (take run (drop (current s) (source s)))
                 else 0)
       (set_current (current s + run) s)).

(** Where [number()] stops when the cursor is at [i]: after the digits,
    and after a point and more digits when a digit follows the point. *)
Definition number_end (src : String.string) (i : nat) : nat :=
  let e1 := i + run_length is_digit (drop i src) in
  match drop e1 src with
  | String "."%char (String d _) =>
      if is_digit d
      then e1 + 1 + run_length is_digit (drop (e1 + 1) src)
      else e1
  | _ => e1
  end.

(** Where an identifier stops, and the type the keyword table gives it. *)
Definition identifier_end (src : String.string) (i : nat) : nat :=
  i + run_length is_alnum (drop i src).

Definition identifier_type (text : String.string) : TokenType :=
  match Map_get KEYWORDS text with
  | Some ty => ty
  | None => IDENTIFIER
  end.

Definition starts_with (x : ascii) (str : String.string) : bool :=
  match str with
  | String c _ => Ascii.eqb c x
  | EmptyString => false
  end.

(** What a turn of the main loop leaves behind for a segment of each kind:
    a token, a report, or nothing. *)
Definition apply_kind (k : SegKind) (s : Scanner) : Scanner :=
  match k with
  | KToken t => push_token t s
  | KError ln msg => Lox_error ln msg s
  | _ => s
  end.

(** [seg_ok] as seen from the turn that made the segment, which started on
    line [ln0]. *)
Definition seg_step_ok (src : String.string) (ln0 : nat) (g : Segment) : Prop :=
  let text := seg_text src g in
  match seg_kind g with
  | KToken t =>
      lexeme t = text
      /\ tline t = ln0 + count_nl text
      /\ type t <> EOF
      /\ (type t <> STRING -> count_nl text = 0)
      /\ count_nl (substring src (seg_end g - 1) (seg_end g)) = 0
  | KBlank => text = " " \/ text = CR \/ text = TAB
  | KNewline => text = LF
  | KComment => String.prefix "//" text = true /\ count_nl text = 0
  | KError ln msg => ln = ln0 + count_nl text
  end.

(** One turn of the main loop, from [s0] to [s'], made the segment [g]. *)
Definition step_to (s0 : Scanner) (g : Segment) (s' : Scanner) : Prop :=
  exists L,
    Forall (fun i => i < String.length (source s0)) L
    /\ seg_start g = current s0
    /\ current s0 < seg_end g
    /\ seg_end g <= String.length (source s0)
    /\ s' = log_reads L
              (apply_kind (seg_kind g)
                 (set_line (line s0 + count_nl (seg_text (source s0) g))
                    (set_current (seg_end g) (set_start (current s0) s0))))
    /\ seg_step_ok (source s0) (line s0) g.

(** The state a branch of [scanToken] starts from when the main loop was in
    [s]: [start] set, one character read and consumed. *)
Definition after_advance (s : Scanner) : Scanner :=
  set_current (current s + 1) (log_reads [current s] (set_start (current s) s)).

(** The state [r] in which the main loop, entered in [s], ends after the
    turns that made the segments [segs] and read the indices [L]. *)
Definition loop_outcome (s r : Scanner) (segs : list Segment) (L : list nat)
  : Prop :=
  source r = source s
  /\ tokens r = (tokens s ++ seg_tokens segs)%list
  /\ errors r = (errors s ++ seg_errors segs)%list
  /\ reads r = (reads s ++ L)%list
  /\ current r = String.length (source s)
  /\ line r = line_after (source s) (String.length (source s)).

(** The texts of a list, one after the other. *)
Definition join (l : list String.string) : String.string :=
  fold_right String.append EmptyString l.

(** The token that ends every scan. *)
Definition eof_token (ln : nat) : Token := mkToken EOF "" LNull ln.

(** ** Sources used as examples *)

Definition example_program : String.string :=
  "var x = 1.5; // c" ++ LF ++ "print x".

(** A string literal with a line feed between its quotes. *)
Definition two_line_string : String.string :=
  DQUOTE ++ "a" ++ LF ++ "b" ++ DQUOTE.

(** The same literal after a keyword and before a semicolon. *)
Definition print_two_lines : String.string :=
  "print " ++ two_line_string ++ ";".

(** The characters at which [scanToken] recognises the start of a lexeme,
    a blank, a line feed or a comment: every case of the [switch] and the
    two tests of its [default]. *)
Definition lexeme_start (c : ascii) : bool :=
  existsb (Ascii.eqb c)
    [ "("; ")"; "{"; "}"; ","; "."; "-"; "+"; ";"; "*"; "!"; "="; "<"; ">";
      "/"; " "; "013"; "009"; "010"; "034" ]%char
  || is_digit c || is_alpha c.

(** [true] when the text starts with a point followed by a digit. *)
Definition fraction_follows (str : String.string) : bool :=
  match str with
  | String "."%char (String d _) => is_digit d
  | _ => false
  end.

(** The four operators that may be followed by [=]: the character, the
    type of the two-character token, the type of the one-character one. *)
Definition equal_operators : list (ascii * TokenType * TokenType) :=
  [ ("!"%char, BANG_EQUAL, BANG); ("="%char, EQUAL_EQUAL, EQUAL);
    ("<"%char, LESS_EQUAL, LESS); (">"%char, GREATER_EQUAL, GREATER) ].

(** The turn from [s] to [s'] emitted exactly the token [t], stopped at
    index [n], and changed neither the line nor the reports. *)
Definition emits (s s' : Scanner) (t : Token) (n : nat) : Prop :=
  source s' = source s
  /\ tokens s' = (tokens s ++ [t])%list
  /\ current s' = n
  /\ line s' = line s
  /\ errors s' = errors s.

(** The turn from [s] to [s'] emitted no token, made exactly the report
    [r], and stopped at index [n]. *)
Definition reports (s s' : Scanner) (r : nat * String.string) (n : nat)
  : Prop :=
  source s' = source s
  /\ tokens s' = tokens s
  /\ current s' = n
  /\ errors s' = (errors s ++ [r])%list.

(** 1.5 and 1 as binary64 values: 3 * 2^-1 and 1 * 2^0. *)
Definition float_1_5 : spec_float := binary_normalize prec emax 3 (-1) false.
Definition float_1 : spec_float := binary_normalize prec emax 1 0 false.

(** The number a run of decimal digits denotes, continuing from [acc]. *)
Fixpoint digits_value (acc : Z) (str : String.string) : Z :=
  match str with
  | EmptyString => acc
  | String c str' =>
      match digit_value c with
      | Some d => digits_value (10 * acc + d)%Z str'
      | None => acc
      end
  end.

(** ** Vocabulary for the further properties *)

(** The ten characters that are a token on their own, with its type. *)
Definition punctuation : list (ascii * TokenType) :=
  [ ("("%char, LEFT_PAREN); (")"%char, RIGHT_PAREN); ("{"%char, LEFT_BRACE);
    ("}"%char, RIGHT_BRACE); (","%char, COMMA); ("."%char, DOT);
    ("-"%char, MINUS); ("+"%char, PLUS); (";"%char, SEMICOLON);
    ("*"%char, STAR) ].

(** The lexeme of the token types that have only one: the punctuation, the
    operators, the reserved words of [KEYWORDS], and the empty [EOF]. *)
Definition fixed_spelling (ty : TokenType) : option String.string :=
  match ty with
  | LEFT_PAREN => Some "(" | RIGHT_PAREN => Some ")"
  | LEFT_BRACE => Some "{" | RIGHT_BRACE => Some "}"
  | COMMA => Some "," | DOT => Some "." | MINUS => Some "-"
  | PLUS => Some "+" | SEMICOLON => Some ";" | SLASH => Some "/"
  | STAR => Some "*"
  | BANG => Some "!" | BANG_EQUAL => Some "!="
  | EQUAL => Some "=" | EQUAL_EQUAL => Some "=="
  | GREATER => Some ">" | GREATER_EQUAL => Some ">="
  | LESS => Some "<" | LESS_EQUAL => Some "<="
  | AND => Some "and" | CLASS => Some "class" | ELSE => Some "else"
  | FALSE => Some "false" | FUN => Some "fun" | FOR => Some "for"
  | IF => Some "if" | NIL => Some "nil" | OR => Some "or"
  | PRINT => Some "print" | RETURN => Some "return" | SUPER => Some "super"
  | THIS => Some "this" | TRUE => Some "true" | VAR => Some "var"
  | WHILE => Some "while"
  | EOF => Some ""
  | IDENTIFIER | STRING | NUMBER => None
  end.

(** Digits, or digits, a point and digits. *)
Definition number_shape (text : String.string) : Prop :=
  exists ds,
    ds <> EmptyString /\ all_chars is_digit ds = true
    /\ (text = ds
        \/ exists fs,
             fs <> EmptyString /\ all_chars is_digit fs = true
             /\ text = ds ++ "." ++ fs).

(** A letter or underscore, then letters, digits and underscores. *)
Definition identifier_shape (text : String.string) : Prop :=
  exists c tail,
    text = String c tail /\ is_alpha c = true
    /\ all_chars is_alnum tail = true.

(** The type of a token, its lexeme and its literal fit together. *)
Definition token_agrees (t : Token) : Prop :=
  match type t with
  | STRING =>
      exists body,
        all_chars (not_char "034") body = true
        /\ lexeme t = DQUOTE ++ body ++ DQUOTE
        /\ literal t = LString body
  | NUMBER =>
      number_shape (lexeme t)
      /\ literal t = LNumber (parseFloat (lexeme t))
  | IDENTIFIER =>
      identifier_shape (lexeme t)
      /\ Map_get KEYWORDS (lexeme t) = None
      /\ literal t = LNull
  | ty => fixed_spelling ty = Some (lexeme t) /\ literal t = LNull
  end.

(** The two texts the scanner reports: the one of [scanToken] and the one
    of [string()]. *)
Definition unexpected_message : String.string := "Unexpected character.".
Definition unterminated_message : String.string := "unexpected character.".

(** What a turn of the main loop from [s] to [s'] can have done: it sets
    [start], consumes at least one character inside the source, and adds
    nothing, or one token, or one report. *)
Definition turn_outcome (s s' : Scanner) : Prop :=
  source s' = source s
  /\ start s' = current s
  /\ current s < current s'
  /\ current s' <= String.length (source s)
  /\ line s <= line s'
  /\ ((tokens s' = tokens s /\ errors s' = errors s)
      \/ (exists t,
            tokens s' = (tokens s ++ [t])%list /\ errors s' = errors s
            /\ token_agrees t /\ type t <> EOF /\ tline t = line s')
      \/ (tokens s' = tokens s
          /\ ((errors s' = (errors s ++ [(line s', unexpected_message)])%list
               /\ current s' = current s + 1)
              \/ (errors s' = (errors s ++ [(line s', unterminated_message)])%list
                  /\ current s' = String.length (source s))))).

(** Reports of unexpected characters, then at most one report of an
    unterminated string. *)
Definition reports_shape (es : list (nat * String.string)) : Prop :=
  exists ups tail,
    es = (ups ++ tail)%list
    /\ Forall (fun r => snd r = unexpected_message) ups
    /\ (tail = [] \/ exists ln, tail = [(ln, unterminated_message)]).

Definition is_blank (c : ascii) : bool :=
  Ascii.eqb c " " || Ascii.eqb c "013" || Ascii.eqb c "009".

Definition is_space (c : ascii) : bool := is_blank c || Ascii.eqb c "010".

(** * Proofs *)

(** ** Texts: [take], [drop], [substring] *)

Lemma substring_take_drop (n m : nat) (str : String.string) :
  String.substring n m str = take m (drop n str).
Proof.
  revert n m; induction str as [|c str IH]; intros [|n] [|m]; simpl;
    try reflexivity.
  - f_equal. apply (IH 0 m).
  - apply (IH n 0).
  - apply (IH n (S m)).
Qed.

Lemma drop_length_ge (n : nat) (str : String.string) :
  String.length str <= n -> drop n str = EmptyString.
Proof.
  revert str; induction n as [|n IH]; intros [|c str]; simpl; intros H;
    try reflexivity; try lia.
  apply IH; lia.
Qed.

Lemma take_length_ge (n : nat) (str : String.string) :
  String.length str <= n -> take n str = str.
Proof.
  revert str; induction n as [|n IH]; intros [|c str]; simpl; intros H;
    try reflexivity; try lia.
  f_equal; apply IH; lia.
Qed.

Lemma length_drop (n : nat) (str : String.string) :
  String.length (drop n str) = String.length str - n.
Proof.
  revert str; induction n as [|n IH]; intros [|c str]; simpl; auto.
Qed.

Lemma length_take (n : nat) (str : String.string) :
  String.length (take n str) = Nat.min n (String.length str).
Proof.
  revert str; induction n as [|n IH]; intros [|c str]; simpl; auto.
Qed.

Lemma drop_drop (a b : nat) (str : String.string) :
  drop a (drop b str) = drop (b + a) str.
Proof.
  revert str; induction b as [|b IH]; intros str; simpl.
  - reflexivity.
  - destruct str as [|c str]; simpl.
    + now destruct a.
    + apply IH.
Qed.

Lemma take_add (a b : nat) (str : String.string) :
  take (a + b) str = take a str ++ take b (drop a str).
Proof.
  revert str; induction a as [|a IH]; intros str; simpl.
  - reflexivity.
  - destruct str as [|c str]; simpl.
    + now destruct b.
    + now rewrite IH.
Qed.

Lemma drop_get (n : nat) (str : String.string) (c : ascii) :
  String.get n str = Some c -> drop n str = String c (drop (S n) str).
Proof.
  revert n; induction str as [|d str IH]; intros [|n]; simpl; try discriminate.
  - intros [= ->]. reflexivity.
  - intros H. rewrite (IH n H). reflexivity.
Qed.

Lemma get_drop (n : nat) (str : String.string) :
  String.get n str = String.get 0 (drop n str).
Proof.
  revert n; induction str as [|d str IH]; intros [|n]; simpl; auto.
Qed.

Lemma get_lt (n : nat) (str : String.string) :
  n < String.length str -> exists c, String.get n str = Some c.
Proof.
  revert n; induction str as [|d str IH]; intros [|n]; simpl; try lia.
  - now exists d.
  - intros H; apply IH; lia.
Qed.

Lemma get_ge (n : nat) (str : String.string) :
  String.length str <= n -> String.get n str = None.
Proof.
  revert n; induction str as [|d str IH]; intros [|n]; simpl; try lia; auto.
  intros H; apply IH; lia.
Qed.

Lemma get_some_lt (n : nat) (str : String.string) (c : ascii) :
  String.get n str = Some c -> n < String.length str.
Proof.
  intros H. destruct (Nat.lt_ge_cases n (String.length str)) as [|Hge]; auto.
  rewrite (get_ge _ _ Hge) in H. discriminate.
Qed.

Lemma append_nil_r (str : String.string) : str ++ "" = str.
Proof. induction str; simpl; congruence. Qed.

Lemma append_assoc (a b c : String.string) : (a ++ b) ++ c = a ++ b ++ c.
Proof. induction a; simpl; congruence. Qed.

Lemma length_append (a b : String.string) :
  String.length (a ++ b) = String.length a + String.length b.
Proof. induction a; simpl; congruence. Qed.

Lemma drop_append (a b : String.string) : drop (String.length a) (a ++ b) = b.
Proof. induction a; simpl; auto. Qed.

Lemma take_append (a b : String.string) : take (String.length a) (a ++ b) = a.
Proof. induction a; simpl; [now destruct b | congruence]. Qed.

Lemma count_nl_append (a b : String.string) :
  count_nl (a ++ b) = count_nl a + count_nl b.
Proof. induction a; simpl; lia. Qed.

(** [substring] between ordered, in-range indices. *)
Lemma substring_eq (str : String.string) (a b : nat) :
  a <= b -> b <= String.length str ->
  substring str a b = take (b - a) (drop a str).
Proof.
  intros Hab Hb. unfold substring.
  rewrite substring_take_drop.
  replace (Nat.min a (String.length str)) with a by lia.
  replace (Nat.min b (String.length str)) with b by lia.
  replace (Nat.min a b) with a by lia.
  replace (Nat.max a b) with b by lia.
  reflexivity.
Qed.

Lemma substring_split (str : String.string) (a b c : nat) :
  a <= b -> b <= c -> c <= String.length str ->
  substring str a c = substring str a b ++ substring str b c.
Proof.
  intros Hab Hbc Hc.
  rewrite !substring_eq by lia.
  replace (c - a) with ((b - a) + (c - b)) by lia.
  rewrite take_add, drop_drop.
  replace (a + (b - a)) with b by lia. reflexivity.
Qed.

Lemma substring_empty (str : String.string) (a : nat) :
  substring str a a = EmptyString.
Proof.
  unfold substring. rewrite substring_take_drop.
  rewrite Nat.min_id, Nat.max_id, Nat.sub_diag.
  now destruct (drop _ str).
Qed.

Lemma substring_full (str : String.string) :
  substring str 0 (String.length str) = str.
Proof.
  rewrite substring_eq by lia. rewrite Nat.sub_0_r. simpl.
  now apply take_length_ge.
Qed.

Lemma substring_one (str : String.string) (n : nat) (c : ascii) :
  String.get n str = Some c -> substring str n (S n) = String c EmptyString.
Proof.
  intros H. pose proof (get_some_lt _ _ _ H).
  rewrite substring_eq by lia. rewrite (drop_get _ _ _ H).
  replace (S n - n) with 1 by lia. simpl. reflexivity.
Qed.

Lemma length_substring (str : String.string) (a b : nat) :
  a <= b -> b <= String.length str -> String.length (substring str a b) = b - a.
Proof.
  intros. rewrite substring_eq by lia. rewrite length_take, length_drop. lia.
Qed.

Lemma substring_append_mid (pre mid post : String.string) :
  substring (pre ++ mid ++ post) (String.length pre)
            (String.length pre + String.length mid) = mid.
Proof.
  rewrite substring_eq by (rewrite ?length_append; lia).
  rewrite drop_append.
  replace (String.length pre + String.length mid - String.length pre)
    with (String.length mid) by lia.
  apply take_append.
Qed.

(** ** Characters *)

Ltac each_ascii c :=
  destruct c as [[] [] [] [] [] [] [] []]; vm_compute; reflexivity.

Lemma isDigit_char (c : ascii) : isDigit (String c EmptyString) = is_digit c.
Proof. each_ascii c. Qed.

Lemma isAlpha_char (c : ascii) : isAlpha (String c EmptyString) = is_alpha c.
Proof. each_ascii c. Qed.

Lemma isAlphaNumeric_char (c : ascii) :
  isAlphaNumeric (String c EmptyString) = is_alnum c.
Proof. unfold isAlphaNumeric, is_alnum. now rewrite isAlpha_char, isDigit_char. Qed.

Lemma eqb_char (c d : ascii) :
  String.eqb (String c EmptyString) (String d EmptyString) = Ascii.eqb c d.
Proof. simpl. apply andb_true_r. Qed.

Lemma digit_not_nl (c : ascii) : is_digit c = true -> Ascii.eqb c "010" = false.
Proof. destruct c as [[] [] [] [] [] [] [] []]; vm_compute; congruence. Qed.

Lemma alnum_not_nl (c : ascii) : is_alnum c = true -> Ascii.eqb c "010" = false.
Proof. destruct c as [[] [] [] [] [] [] [] []]; vm_compute; congruence. Qed.

(** ** State bookkeeping *)

(** Unfolds the field updates and compares two states field by field. *)
Ltac fields :=
  cbn [source tokens start current line errors reads
       set_start set_current set_line push_token Lox_error log_reads
       source_charAt addToken fst snd] in *.

Lemma Scanner_ext (s s' : Scanner) :
  source s = source s' -> tokens s = tokens s' -> start s = start s' ->
  current s = current s' -> line s = line s' -> errors s = errors s' ->
  reads s = reads s' -> s = s'.
Proof. destruct s, s'; simpl; intros; subst; reflexivity. Qed.

Ltac leaf :=
  repeat lazymatch goal with
         | |- ?x = ?x => reflexivity
         | |- @eq nat _ _ => lia
         | |- _ = ?y => tryif is_evar y then reflexivity else (progress f_equal)
         end.

Ltac state_eq :=
  apply Scanner_ext;
  cbn [source tokens start current line errors reads
       set_start set_current set_line push_token Lox_error log_reads
       addToken after_advance fst snd];
  rewrite <- ?app_assoc, ?app_nil_r; leaf.

Lemma isAtEnd_true (s : Scanner) :
  isAtEnd s = true <-> String.length (source s) <= current s.
Proof. unfold isAtEnd. apply Nat.leb_le. Qed.

Lemma isAtEnd_false (s : Scanner) :
  isAtEnd s = false <-> current s < String.length (source s).
Proof. unfold isAtEnd. apply Nat.leb_gt. Qed.

Lemma isAtEnd_get (s : Scanner) (c : ascii) :
  String.get (current s) (source s) = Some c -> isAtEnd s = false.
Proof. intros H. apply isAtEnd_false. eapply get_some_lt; eauto. Qed.

Lemma charAt_get (str : String.string) (n : nat) (c : ascii) :
  String.get n str = Some c -> charAt str n = String c EmptyString.
Proof. unfold charAt. now intros ->. Qed.

(** ** The primitives, at the end of the source and inside it *)

Lemma peek_end (s : Scanner) : isAtEnd s = true -> peek s = (NUL, s).
Proof. unfold peek. now intros ->. Qed.

Lemma peek_char (s : Scanner) (c : ascii) :
  String.get (current s) (source s) = Some c ->
  peek s = (String c EmptyString, log_reads [current s] s).
Proof.
  intros H. unfold peek. rewrite (isAtEnd_get _ _ H).
  unfold source_charAt. now rewrite (charAt_get _ _ _ H).
Qed.

Lemma peekNext_end (s : Scanner) :
  String.length (source s) <= current s + 1 -> peekNext s = (NUL, s).
Proof.
  intros H. unfold peekNext.
  now replace (_ <=? _)%nat with true by (symmetry; now apply Nat.leb_le).
Qed.

Lemma peekNext_char (s : Scanner) (c : ascii) :
  String.get (current s + 1) (source s) = Some c ->
  peekNext s = (String c EmptyString, log_reads [current s + 1] s).
Proof.
  intros H. unfold peekNext. pose proof (get_some_lt _ _ _ H) as Hlt.
  replace (_ <=? _)%nat with false by (symmetry; apply Nat.leb_gt; lia).
  unfold source_charAt. now rewrite (charAt_get _ _ _ H).
Qed.

Lemma advance_char (s : Scanner) (c : ascii) :
  String.get (current s) (source s) = Some c ->
  advance s
  = (String c EmptyString, set_current (current s + 1) (log_reads [current s] s)).
Proof.
  intros H. unfold advance, source_charAt. now rewrite (charAt_get _ _ _ H).
Qed.

Lemma match_end (expected : String.string) (s : Scanner) :
  isAtEnd s = true -> expected <> NUL -> match_ expected s = (false, s).
Proof.
  intros He Hx. unfold match_. rewrite (peek_end _ He).
  destruct (String.eqb_spec NUL expected) as [E|E]; [congruence|reflexivity].
Qed.

Lemma match_char (x : ascii) (s : Scanner) (c : ascii) :
  String.get (current s) (source s) = Some c ->
  match_ (String x EmptyString) s
  = if Ascii.eqb c x
    then (true, set_current (current s + 1) (log_reads [current s] s))
    else (false, log_reads [current s] s).
Proof.
  intros H. unfold match_. rewrite (peek_char _ _ H), eqb_char.
  destruct (Ascii.eqb c x); reflexivity.
Qed.

(** ** Loops that walk over a run of characters

    The four inner loops share one shape: the test fails at the end of the
    source and otherwise asks [p] of the character under the cursor; the
    body consumes that character, and in [string()] also counts a line
    feed.  Such a loop stops by its own test, at the end of the longest
    run of [p]-characters, having read only inside the source. *)

Section CharLoop.
Variable p : ascii -> bool.
Variable bump : bool.
Variable k : nat.
Variable cond : Scanner -> bool * Scanner.
Variable body : Scanner -> Scanner.

Hypothesis cond_end : forall s, isAtEnd s = true -> cond s = (false, s).
Hypothesis cond_char : forall s c,
  String.get (current s) (source s) = Some c ->
  cond s = (p c, log_reads [current s] s).
Hypothesis body_char : forall s c,
  String.get (current s) (source s) = Some c ->
  body s
  = set_line (line s + if bump && Ascii.eqb c "010" then 1 else 0)
      (set_current (current s + 1) (log_reads (repeat (current s) k) s)).

Lemma char_loop (fuel : nat) (s : Scanner) :
  String.length (source s) - current s < fuel ->
  exists L,
    Forall (fun i => i < String.length (source s)) L
    /\ while_ fuel cond body s = loop_result p bump s L
    /\ while_rel cond body s (while_ fuel cond body s).
Proof.
  revert s; induction fuel as [|fuel IH]; intros s Hf; [lia|].
  cbn [while_]. unfold loop_result.
  destruct (String.get (current s) (source s)) as [c|] eqn:Hg.
  - pose proof (get_some_lt _ _ _ Hg) as Hlt.
    rewrite (cond_char _ _ Hg), (drop_get _ _ _ Hg). cbn [run_length].
    destruct (p c) eqn:Hp.
    + pose proof (body_char (log_reads [current s] s) c Hg) as Hb.
      destruct (IH (body (log_reads [current s] s))) as (L & HL & Heq & Hrel).
      { rewrite Hb. fields. lia. }
      exists ([current s] ++ repeat (current s) k ++ L)%list. split; [|split].
      * apply Forall_app; split; [repeat constructor; auto|].
        apply Forall_app; split.
        -- apply Forall_forall. intros x Hx.
           apply repeat_spec in Hx. now subst.
        -- rewrite Hb in HL. exact HL.
      * rewrite Heq. unfold loop_result. rewrite Hb. fields.
        replace (current s + 1) with (S (current s)) by lia.
        cbn [take count_nl].
        state_eq. destruct bump; simpl; lia.
      * eapply while_turn;
          [rewrite (cond_char _ _ Hg), Hp; reflexivity | exact Hrel].
    + exists [current s]. split; [|split].
      * repeat constructor; auto.
      * state_eq. destruct bump; simpl; lia.
      * apply while_exit. rewrite (cond_char _ _ Hg). now rewrite Hp.
  - assert (He : isAtEnd s = true).
    { apply isAtEnd_true.
      destruct (Nat.lt_ge_cases (current s) (String.length (source s)))
        as [Hlt|]; auto.
      destruct (get_lt _ _ Hlt); congruence. }
    rewrite (cond_end _ He). exists []. split; [constructor|split].
    + rewrite drop_length_ge by (now apply isAtEnd_true).
      destruct s; fields. simpl. state_eq. now destruct bump.
    + apply while_exit. now apply cond_end.
Qed.
End CharLoop.

(** The four loops of the scanner are instances. *)

Lemma advance_body_char (b : bool) (s : Scanner) (c : ascii) :
  String.get (current s) (source s) = Some c ->
  advance_body s
  = set_line (line s + if false && b then 1 else 0)
      (set_current (current s + 1) (log_reads (repeat (current s) 1) s)).
Proof.
  intros H. unfold advance_body. rewrite (advance_char _ _ H).
  destruct s; fields. cbn [repeat andb]. state_eq.
Qed.

Lemma digit_loop (s : Scanner) :
  exists L,
    Forall (fun i => i < String.length (source s)) L
    /\ while_ (budget s) digit_cond advance_body s
       = loop_result is_digit false s L
    /\ while_rel digit_cond advance_body s
         (while_ (budget s) digit_cond advance_body s).
Proof.
  apply (char_loop is_digit false 1).
  - intros s0 He. unfold digit_cond. now rewrite (peek_end _ He).
  - intros s0 c Hg. unfold digit_cond.
    now rewrite (peek_char _ _ Hg), isDigit_char.
  - intros s0 c Hg. exact (advance_body_char (Ascii.eqb c "010") _ _ Hg).
  - unfold budget. lia.
Qed.

Lemma alnum_loop (s : Scanner) :
  exists L,
    Forall (fun i => i < String.length (source s)) L
    /\ while_ (budget s) alnum_cond advance_body s
       = loop_result is_alnum false s L
    /\ while_rel alnum_cond advance_body s
         (while_ (budget s) alnum_cond advance_body s).
Proof.
  apply (char_loop is_alnum false 1).
  - intros s0 He. unfold alnum_cond. now rewrite (peek_end _ He).
  - intros s0 c Hg. unfold alnum_cond.
    now rewrite (peek_char _ _ Hg), isAlphaNumeric_char.
  - intros s0 c Hg. exact (advance_body_char (Ascii.eqb c "010") _ _ Hg).
  - unfold budget. lia.
Qed.

Lemma comment_loop (s : Scanner) :
  exists L,
    Forall (fun i => i < String.length (source s)) L
    /\ while_ (budget s) comment_cond advance_body s
       = loop_result (not_char "010") false s L
    /\ while_rel comment_cond advance_body s
         (while_ (budget s) comment_cond advance_body s).
Proof.
  apply (char_loop (not_char "010") false 1).
  - intros s0 He. unfold comment_cond. rewrite (peek_end _ He), He.
    reflexivity.
  - intros s0 c Hg. unfold comment_cond. rewrite (peek_char _ _ Hg).
    replace (isAtEnd (log_reads [current s0] s0)) with (isAtEnd s0)
      by reflexivity.
    rewrite (isAtEnd_get _ _ Hg). unfold LF. rewrite eqb_char.
    unfold not_char. now rewrite andb_true_r.
  - intros s0 c Hg. exact (advance_body_char (Ascii.eqb c "010") _ _ Hg).
  - unfold budget. lia.
Qed.

Lemma string_loop (s : Scanner) :
  exists L,
    Forall (fun i => i < String.length (source s)) L
    /\ while_ (budget s) string_cond string_body s
       = loop_result (not_char "034") true s L
    /\ while_rel string_cond string_body s
         (while_ (budget s) string_cond string_body s).
Proof.
  apply (char_loop (not_char "034") true 2).
  - intros s0 He. unfold string_cond. rewrite (peek_end _ He), He.
    reflexivity.
  - intros s0 c Hg. unfold string_cond. rewrite (peek_char _ _ Hg).
    replace (isAtEnd (log_reads [current s0] s0)) with (isAtEnd s0)
      by reflexivity.
    rewrite (isAtEnd_get _ _ Hg). unfold DQUOTE. rewrite eqb_char.
    unfold not_char. now rewrite andb_true_r.
  - intros s0 c Hg. unfold string_body. rewrite (peek_char _ _ Hg).
    unfold LF. rewrite eqb_char. cbn [andb repeat].
    destruct (Ascii.eqb c "010").
    + erewrite advance_char by exact Hg.
      state_eq.
    + erewrite advance_char by exact Hg.
      state_eq.
  - unfold budget. lia.
Qed.

(** ** Runs of characters *)

Lemma run_length_le (p : ascii -> bool) (str : String.string) :
  run_length p str <= String.length str.
Proof. induction str as [|c str IH]; simpl; [lia|destruct (p c); lia]. Qed.

Lemma run_length_stops (p : ascii -> bool) (str : String.string) :
  stops p (drop (run_length p str) str) = true.
Proof.
  induction str as [|c str IH]; simpl; auto.
  destruct (p c) eqn:Hp; simpl; auto. now rewrite Hp.
Qed.

Lemma run_length_all (p : ascii -> bool) (str : String.string) :
  all_chars p (take (run_length p str) str) = true.
Proof.
  induction str as [|c str IH]; simpl; auto.
  destruct (p c) eqn:Hp; simpl; auto. now rewrite Hp.
Qed.

(** The run over [run ++ rest] is [run] when [rest] stops it. *)
Lemma run_length_append (p : ascii -> bool) (run rest : String.string) :
  all_chars p run = true -> stops p rest = true ->
  run_length p (run ++ rest) = String.length run.
Proof.
  induction run as [|c run IH]; simpl; intros Ha Hs.
  - destruct rest as [|c rest]; simpl in *; auto.
    now destruct (p c).
  - apply andb_prop in Ha as [-> Ha]. now rewrite IH.
Qed.

Lemma all_chars_no_nl (p : ascii -> bool) (str : String.string) :
  (forall c, p c = true -> Ascii.eqb c "010" = false) ->
  all_chars p str = true -> count_nl str = 0.
Proof.
  intros Hp. induction str as [|c str IH]; simpl; auto.
  intros Ha. apply andb_prop in Ha as [Hc Ha].
  now rewrite (Hp _ Hc), IH.
Qed.

Lemma not_nl_no_nl (c : ascii) :
  not_char "010" c = true -> Ascii.eqb c "010" = false.
Proof. unfold not_char. now destruct (Ascii.eqb c "010"). Qed.

Lemma drop_cons (n : nat) (str : String.string) (c : ascii)
    (r : String.string) :
  drop n str = String c r ->
  String.get n str = Some c /\ r = drop (S n) str.
Proof.
  intros H. assert (Hg : String.get n str = Some c).
  { rewrite get_drop, H. reflexivity. }
  split; auto. rewrite (drop_get _ _ _ Hg) in H. congruence.
Qed.

Lemma drop_nil (n : nat) (str : String.string) :
  drop n str = EmptyString -> String.length str <= n.
Proof.
  intros H. destruct (Nat.lt_ge_cases n (String.length str)) as [Hlt|]; auto.
  destruct (get_lt _ _ Hlt) as [c Hc].
  rewrite (drop_get _ _ _ Hc) in H. discriminate.
Qed.

(** ** The sub-scanners *)

(** [string()], entered with the cursor just after the opening quote. *)
Lemma string_spec (s : Scanner) :
  current s <= String.length (source s) ->
  let body := take (run_length (not_char "034") (drop (current s) (source s)))
                   (drop (current s) (source s)) in
  let e := current s + String.length body in
  let ln := line s + count_nl body in
  exists L,
    Forall (fun i => i < String.length (source s)) L
    /\ string s
       = log_reads L
           (match drop e (source s) with
            | EmptyString =>
                Lox_error ln "unexpected character."
                  (set_line ln (set_current e s))
            | String _ _ =>
                push_token
                  (mkToken STRING (substring (source s) (start s) (e + 1))
                     (LString (substring (source s) (start s + 1) e)) ln)
                  (set_line ln (set_current (e + 1) s))
            end).
Proof.
  intros Hle body e ln.
  assert (He : e = current s
                   + run_length (not_char "034") (drop (current s) (source s))).
  { subst e body. rewrite length_take, length_drop.
    pose proof (run_length_le (not_char "034") (drop (current s) (source s)))
      as Hr.
    rewrite length_drop in Hr. lia. }
  unfold string.
  destruct (string_loop s) as (L & HL & Heq & _). rewrite Heq.
  unfold loop_result. fold body. rewrite <- He. fold ln.
  destruct (drop e (source s)) as [|c r] eqn:Hd.
  - apply drop_nil in Hd.
    replace (isAtEnd _) with true
      by (symmetry; apply isAtEnd_true; fields; lia).
    exists L. split; [exact HL|]. reflexivity.
  - apply drop_cons in Hd as [Hg _].
    pose proof (get_some_lt _ _ _ Hg) as Hlt.
    replace (isAtEnd _) with false
      by (symmetry; apply isAtEnd_false; fields; lia).
    erewrite advance_char by (fields; exact Hg).
    exists (L ++ [e])%list. split.
    + apply Forall_app; split; auto.
    + fields. replace (e + 1 - 1) with e by lia.
      state_eq.
Qed.

(** [number()], entered with the cursor just after the first digit. *)
Lemma number_spec (s : Scanner) :
  let e := number_end (source s) (current s) in
  let text := substring (source s) (start s) e in
  exists L,
    Forall (fun i => i < String.length (source s)) L
    /\ number s
       = log_reads L
           (push_token (mkToken NUMBER text (LNumber (parseFloat text)) (line s))
              (set_current e s)).
Proof.
  intros e text. unfold number.
  destruct (digit_loop s) as (L1 & HL1 & Heq1 & _). rewrite Heq1.
  unfold loop_result. cbn [source current line set_line set_current log_reads].
  set (e1 := current s + run_length is_digit (drop (current s) (source s))).
  set (s1 := log_reads L1 (set_line (line s + 0) (set_current e1 s))).
  assert (Hs1 : s1 = log_reads L1 (set_current e1 s)).
  { subst s1. state_eq. }
  assert (He : e = number_end (source s) (current s)) by reflexivity.
  unfold number_end in He. fold e1 in He. subst text. clearbody e.
  destruct (drop e1 (source s)) as [|c r] eqn:Hd.
  - (* the digits run to the end of the source *)
    apply drop_nil in Hd.
    rewrite peek_end by (apply isAtEnd_true; subst s1; fields; lia).
    change (String.eqb NUL ".") with false. cbv iota.
    exists L1. split; auto. rewrite Hs1. subst e. fields.
    state_eq.
  - apply drop_cons in Hd as [Hg Hr].
    pose proof (get_some_lt _ _ _ Hg) as Hlt.
    erewrite peek_char by (subst s1; fields; exact Hg).
    change "." with (String "."%char EmptyString) at 1. rewrite eqb_char.
    destruct (Ascii.eqb_spec c ".") as [->|Hne].
    + destruct r as [|d r'] eqn:Hr'.
      * (* a point ends the source *)
        symmetry in Hr. apply drop_nil in Hr.
        rewrite peekNext_end by (subst s1; fields; lia).
        change (isDigit NUL) with false. cbv iota.
        exists (L1 ++ [e1])%list. split.
        { apply Forall_app; split; auto. }
        rewrite Hs1. subst e. fields. state_eq.
      * symmetry in Hr. apply drop_cons in Hr as [Hg2 _].
        pose proof (get_some_lt _ _ _ Hg2) as Hlt2.
        erewrite peekNext_char
          by (subst s1; fields; replace (e1 + 1) with (S e1) by lia; exact Hg2).
        rewrite isDigit_char.
        destruct (is_digit d) eqn:Hdig.
        -- (* a point and a digit: the fraction is consumed *)
           erewrite advance_char by (subst s1; fields; exact Hg).
           match goal with
           | |- context [while_ (budget ?st) digit_cond advance_body ?st] =>
               destruct (digit_loop st) as (L2 & HL2 & Heq2 & _);
               rewrite Heq2
           end.
           unfold loop_result; subst s1; fields.
           exists (L1 ++ [e1] ++ [e1 + 1] ++ [e1] ++ L2)%list. split.
           { repeat (apply Forall_app; split); auto.
             constructor; auto. lia. }
           subst e. state_eq.
        -- exists (L1 ++ [e1] ++ [e1 + 1])%list. split.
           { repeat (apply Forall_app; split); auto.
             constructor; auto. lia. }
           rewrite Hs1. subst e. fields. state_eq.
    + (* the digits are followed by something other than a point *)
      exists (L1 ++ [e1])%list. split.
      { apply Forall_app; split; auto. }
      assert (e = e1) as ->.
      { rewrite He. destruct c as [[] [] [] [] [] [] [] []];
          try reflexivity. now elim Hne. }
      rewrite Hs1. fields. state_eq.
Qed.

(** [identifier()], entered with the cursor just after the first letter. *)
Lemma identifier_spec (s : Scanner) :
  let e := identifier_end (source s) (current s) in
  let text := substring (source s) (start s) e in
  exists L,
    Forall (fun i => i < String.length (source s)) L
    /\ identifier s
       = log_reads L
           (push_token (mkToken (identifier_type text) text LNull (line s))
              (set_current e s)).
Proof.
  intros e text. unfold identifier.
  destruct (alnum_loop s) as (L & HL & Heq & _). rewrite Heq.
  exists L. split; auto. unfold loop_result, identifier_type.
  subst text e. unfold identifier_end. fields.
  state_eq.
Qed.

(** The operators [!], [=], [<], [>], entered just after that character. *)
Lemma operator_spec (two one : TokenType) (s : Scanner) :
  let m := starts_with "=" (drop (current s) (source s)) in
  let e := if m then current s + 1 else current s in
  exists L,
    Forall (fun i => i < String.length (source s)) L
    /\ operator two one s
       = log_reads L
           (push_token
              (mkToken (if m then two else one)
                 (substring (source s) (start s) e) LNull (line s))
              (set_current e s)).
Proof.
  intros m e. unfold operator.
  destruct (drop (current s) (source s)) as [|c r] eqn:Hd.
  - apply drop_nil in Hd.
    rewrite match_end by (try apply isAtEnd_true; auto; discriminate).
    exists []. split; [constructor|]. subst e m. cbn [starts_with].
    state_eq.
  - apply drop_cons in Hd as [Hg _].
    pose proof (get_some_lt _ _ _ Hg) as Hlt.
    change "=" with (String "="%char EmptyString).
    rewrite (match_char _ _ _ Hg). subst e m. cbn [starts_with].
    exists [current s]. split; [repeat constructor; auto|].
    destruct (Ascii.eqb c "="); state_eq.
Qed.

(** [/]: a comment runs to the line feed or to the end of the source. *)
Lemma slash_spec (s : Scanner) :
  let m := starts_with "/" (drop (current s) (source s)) in
  exists L,
    Forall (fun i => i < String.length (source s)) L
    /\ (let (m', s1) := match_ "/" s in
        if m' then while_ (budget s1) comment_cond advance_body s1
        else addToken SLASH LNull s1)
       = log_reads L
           (if m
            then set_current
                   (current s + 1
                    + run_length (not_char "010")
                        (drop (current s + 1) (source s))) s
            else push_token
                   (mkToken SLASH
                      (substring (source s) (start s) (current s)) LNull
                      (line s)) s).
Proof.
  intros m.
  destruct (drop (current s) (source s)) as [|c r] eqn:Hd.
  - apply drop_nil in Hd.
    rewrite match_end by (try apply isAtEnd_true; auto; discriminate).
    exists []. split; [constructor|]. subst m. cbn [starts_with].
    state_eq.
  - apply drop_cons in Hd as [Hg _].
    pose proof (get_some_lt _ _ _ Hg) as Hlt.
    change "/" with (String "/"%char EmptyString).
    rewrite (match_char _ _ _ Hg). subst m. cbn [starts_with].
    destruct (Ascii.eqb c "/").
    + match goal with
      | |- context [while_ (budget ?st) comment_cond advance_body ?st] =>
          destruct (comment_loop st) as (L & HL & Heq & _); rewrite Heq
      end.
      exists ([current s] ++ L)%list. split.
      { apply Forall_app; split; [repeat constructor; auto|exact HL]. }
      unfold loop_result. state_eq.
    + exists [current s]. split; [repeat constructor; auto|].
      state_eq.
Qed.

(** ** Runs inside the source *)

Lemma substring_run (p : ascii -> bool) (src : String.string) (i : nat) :
  i <= String.length src ->
  let run := run_length p (drop i src) in
  i + run <= String.length src
  /\ substring src i (i + run) = take run (drop i src)
  /\ all_chars p (substring src i (i + run)) = true.
Proof.
  intros Hi run.
  assert (Hr : i + run <= String.length src).
  { pose proof (run_length_le p (drop i src)) as H.
    rewrite length_drop in H. subst run. lia. }
  assert (Hs : substring src i (i + run) = take run (drop i src)).
  { rewrite substring_eq by lia. f_equal. lia. }
  repeat split; auto. rewrite Hs. apply run_length_all.
Qed.

Lemma substring_S (src : String.string) (n : nat) (c : ascii) :
  String.get n src = Some c ->
  substring src n (n + 1) = String c EmptyString.
Proof. rewrite Nat.add_1_r. apply substring_one. Qed.

Lemma number_end_bounds (src : String.string) (i : nat) :
  i <= String.length src ->
  i <= number_end src i
  /\ number_end src i <= String.length src
  /\ count_nl (substring src i (number_end src i)) = 0.
Proof.
  intros Hi. unfold number_end.
  destruct (substring_run is_digit src i Hi) as (Hb1 & Hs1 & Ha1).
  set (e1 := i + run_length is_digit (drop i src)) in *.
  assert (Hn1 : count_nl (substring src i e1) = 0).
  { eapply all_chars_no_nl; [apply digit_not_nl|exact Ha1]. }
  destruct (drop e1 src) as [|c r] eqn:Hd; [repeat split; auto; lia|].
  apply drop_cons in Hd as [Hg Hr].
  destruct (Ascii.eqb_spec c ".") as [->|Hne].
  - destruct r as [|d r']; [repeat split; auto; lia|].
    destruct (is_digit d) eqn:Hdig; [|repeat split; auto; lia].
    pose proof (get_some_lt _ _ _ Hg) as Hlt.
    destruct (substring_run is_digit src (e1 + 1)) as (Hb2 & Hs2 & Ha2);
      [lia|].
    repeat split; [lia|lia|].
    rewrite (substring_split src i e1) by lia.
    rewrite (substring_split src e1 (e1 + 1)) by lia.
    rewrite !count_nl_append, Hn1, (substring_S _ _ _ Hg).
    rewrite (all_chars_no_nl is_digit _ digit_not_nl Ha2). reflexivity.
  - destruct c as [[] [] [] [] [] [] [] []];
      try (repeat split; auto; lia). now elim Hne.
Qed.

(** ** One turn of the main loop, branch by branch

    In each lemma [s] is the state at the head of the loop and the state
    handed to the branch is the one [advance()] left, with [start] set. *)

(** Opens [step_to]; after the log is given and shown to stay inside the
    source, [step_core] settles the bounds and the state (which also fixes
    a token left open) and leaves the description of the segment. *)
Ltac step_open :=
  unfold step_to, seg_step_ok, seg_text;
  cbn [seg_start seg_end seg_kind apply_kind].

Ltac step_core :=
  split; [reflexivity|];
  split; [lia|];
  split; [lia|];
  split; [state_eq|];
  cbn [type lexeme tline].

Ltac one_read Hlt := repeat constructor; exact Hlt.

Ltac read_then Hlt HL :=
  apply Forall_app; split; [repeat constructor; exact Hlt | exact HL].

Lemma count_nl_last (src : String.string) (a c : nat) :
  a < c -> c <= String.length src ->
  count_nl (substring src a c) = 0 ->
  count_nl (substring src (c - 1) c) = 0.
Proof.
  intros Hac Hc H. rewrite (substring_split src a (c - 1) c) in H by lia.
  rewrite count_nl_append in H. lia.
Qed.

Ltac token_ok Hnl :=
  rewrite ?Hnl; repeat split; auto; try lia; try discriminate;
  try (eapply count_nl_last; [| |exact Hnl]; lia).

Lemma step_single (s : Scanner) (c : ascii) (ty : TokenType) :
  String.get (current s) (source s) = Some c ->
  Ascii.eqb c "010" = false -> ty <> EOF ->
  step_to s
    (mkSegment (current s) (current s + 1)
       (KToken (mkToken ty (substring (source s) (current s) (current s + 1))
                        LNull (line s))))
    (addToken ty LNull (after_advance s)).
Proof.
  intros Hg Hc Hty. pose proof (get_some_lt _ _ _ Hg) as Hlt.
  assert (Hnl : count_nl (substring (source s) (current s) (current s + 1)) = 0).
  { rewrite (substring_S _ _ _ Hg). simpl. now rewrite Hc. }
  step_open. exists [current s].
  split; [one_read Hlt|]. step_core.
  token_ok Hnl.
Qed.

Lemma step_operator (s : Scanner) (c : ascii) (two one : TokenType) :
  String.get (current s) (source s) = Some c ->
  Ascii.eqb c "010" = false ->
  two <> EOF -> one <> EOF ->
  exists g, step_to s g (operator two one (after_advance s)).
Proof.
  intros Hg Hc Htwo Hone. pose proof (get_some_lt _ _ _ Hg) as Hlt.
  destruct (operator_spec two one (after_advance s)) as (L & HL & Heq).
  rewrite Heq. clear Heq. unfold after_advance in *. fields.
  assert (Hnl1 : count_nl (substring (source s) (current s) (current s + 1))
                 = 0).
  { rewrite (substring_S _ _ _ Hg). simpl. now rewrite Hc. }
  destruct (drop (current s + 1) (source s)) as [|d r] eqn:Hd;
    cbn [starts_with].
  - eexists (mkSegment (current s) (current s + 1) (KToken _)).
    step_open. exists ([current s] ++ L)%list.
    split; [read_then Hlt HL|]. step_core.
    token_ok Hnl1.
  - apply drop_cons in Hd as [Hg2 _].
    pose proof (get_some_lt _ _ _ Hg2) as Hlt2.
    destruct (Ascii.eqb_spec d "=") as [->|Hne].
    + assert (Hnl : count_nl (substring (source s) (current s)
                                (current s + 1 + 1)) = 0).
      { rewrite (substring_split _ _ (current s + 1)) by lia.
        rewrite count_nl_append, Hnl1, (substring_S _ _ _ Hg2).
        reflexivity. }
      eexists (mkSegment (current s) (current s + 1 + 1) (KToken _)).
      step_open. exists ([current s] ++ L)%list.
      split; [read_then Hlt HL|]. step_core.
      token_ok Hnl.
    + eexists (mkSegment (current s) (current s + 1) (KToken _)).
      step_open. exists ([current s] ++ L)%list.
      split; [read_then Hlt HL|]. step_core.
      token_ok Hnl1.
Qed.

Lemma step_slash (s : Scanner) :
  String.get (current s) (source s) = Some "/"%char ->
  exists g,
    step_to s g
      (let (m, s1) := match_ "/" (after_advance s) in
       if m then while_ (budget s1) comment_cond advance_body s1
       else addToken SLASH LNull s1).
Proof.
  intros Hg. pose proof (get_some_lt _ _ _ Hg) as Hlt.
  destruct (slash_spec (after_advance s)) as (L & HL & Heq).
  rewrite Heq. clear Heq. unfold after_advance in *. fields.
  assert (Hnl1 : count_nl (substring (source s) (current s) (current s + 1))
                 = 0).
  { rewrite (substring_S _ _ _ Hg). reflexivity. }
  destruct (starts_with "/" (drop (current s + 1) (source s))) eqn:Hm.
  - destruct (drop (current s + 1) (source s)) as [|d r] eqn:Hd;
      [discriminate|].
    cbn [starts_with] in Hm. apply Ascii.eqb_eq in Hm. subst d.
    apply drop_cons in Hd as [Hg2 _].
    pose proof (get_some_lt _ _ _ Hg2) as Hlt2.
    destruct (substring_run (not_char "010") (source s) (current s + 1 + 1))
      as (Hb & Hs & Ha); [lia|].
    replace (S (current s + 1)) with (current s + 1 + 1) in * by lia.
    set (e := current s + 1 + 1
              + run_length (not_char "010")
                  (drop (current s + 1 + 1) (source s))) in *.
    assert (Htext : substring (source s) (current s) e
                    = "//" ++ substring (source s) (current s + 1 + 1) e).
    { rewrite (substring_split _ (current s) (current s + 1) e) by lia.
      rewrite (substring_split _ (current s + 1) (current s + 1 + 1) e)
        by lia.
      now rewrite (substring_S _ _ _ Hg), (substring_S _ _ _ Hg2). }
    assert (Hnl : count_nl (substring (source s) (current s) e) = 0).
    { rewrite Htext, count_nl_append.
      rewrite (all_chars_no_nl _ _ not_nl_no_nl Ha). reflexivity. }
    exists (mkSegment (current s) e KComment).
    step_open. exists ([current s] ++ L)%list.
    split; [read_then Hlt HL|]. step_core.
    split; [|exact Hnl]. rewrite Htext.
    destruct (substring (source s) (current s + 1 + 1) e); reflexivity.
  - eexists (mkSegment (current s) (current s + 1) (KToken _)).
    step_open. exists ([current s] ++ L)%list.
    split; [read_then Hlt HL|]. step_core.
    token_ok Hnl1.
Qed.

Lemma step_number (s : Scanner) (c : ascii) :
  String.get (current s) (source s) = Some c -> is_digit c = true ->
  exists g, step_to s g (number (after_advance s)).
Proof.
  intros Hg Hc. pose proof (get_some_lt _ _ _ Hg) as Hlt.
  destruct (number_spec (after_advance s)) as (L & HL & Heq).
  rewrite Heq. clear Heq. unfold after_advance in *. fields.
  destruct (number_end_bounds (source s) (current s + 1)) as (Hb1 & Hb2 & Hn);
    [lia|].
  set (e := number_end (source s) (current s + 1)) in *.
  assert (Hnl : count_nl (substring (source s) (current s) e) = 0).
  { rewrite (substring_split _ _ (current s + 1)) by lia.
    rewrite count_nl_append, Hn, (substring_S _ _ _ Hg). simpl.
    now rewrite (digit_not_nl _ Hc). }
  eexists (mkSegment (current s) e (KToken _)).
  step_open. exists ([current s] ++ L)%list.
  split; [read_then Hlt HL|]. step_core.
  token_ok Hnl.
Qed.

Lemma identifier_type_not_EOF (text : String.string) :
  identifier_type text <> EOF.
Proof.
  unfold identifier_type, KEYWORDS. cbn [Map_get].
  repeat match goal with
         | |- context [if ?b then _ else _] => destruct b; [discriminate|]
         end.
  discriminate.
Qed.

Lemma step_identifier (s : Scanner) (c : ascii) :
  String.get (current s) (source s) = Some c -> is_alpha c = true ->
  exists g, step_to s g (identifier (after_advance s)).
Proof.
  intros Hg Hc. pose proof (get_some_lt _ _ _ Hg) as Hlt.
  destruct (identifier_spec (after_advance s)) as (L & HL & Heq).
  rewrite Heq. clear Heq. unfold after_advance in *. fields.
  unfold identifier_end.
  destruct (substring_run is_alnum (source s) (current s + 1))
    as (Hb & Hs & Ha); [lia|].
  set (e := current s + 1 + run_length is_alnum (drop (current s + 1) (source s)))
    in *.
  assert (Hnl : count_nl (substring (source s) (current s) e) = 0).
  { rewrite (substring_split _ _ (current s + 1)) by lia.
    rewrite count_nl_append, (substring_S _ _ _ Hg).
    rewrite (all_chars_no_nl _ _ alnum_not_nl Ha). simpl.
    rewrite (alnum_not_nl c); auto. unfold is_alnum. now rewrite Hc. }
  eexists (mkSegment (current s) e (KToken _)).
  step_open. exists ([current s] ++ L)%list.
  split; [read_then Hlt HL|]. step_core.
  token_ok Hnl; apply identifier_type_not_EOF.
Qed.

Lemma step_string (s : Scanner) :
  String.get (current s) (source s) = Some "034"%char ->
  exists g, step_to s g (string (after_advance s)).
Proof.
  intros Hg. pose proof (get_some_lt _ _ _ Hg) as Hlt.
  destruct (string_spec (after_advance s)) as (L & HL & Heq);
    [unfold after_advance; fields; lia|].
  rewrite Heq. clear Heq. unfold after_advance in *. fields.
  destruct (substring_run (not_char "034") (source s) (current s + 1))
    as (Hb & Hs & Ha); [lia|].
  set (run := run_length (not_char "034") (drop (current s + 1) (source s)))
    in *.
  set (body := take run (drop (current s + 1) (source s))) in *.
  assert (Hlen : String.length body = run).
  { subst body. rewrite <- Hs. rewrite length_substring by lia. lia. }
  rewrite Hlen.
  set (e := current s + 1 + run) in *.
  assert (Hhead : substring (source s) (current s) e = DQUOTE ++ body).
  { rewrite (substring_split _ _ (current s + 1)) by lia.
    now rewrite (substring_S _ _ _ Hg), Hs. }
  destruct (drop e (source s)) as [|d r] eqn:Hd.
  - apply drop_nil in Hd. assert (He : e = String.length (source s)) by lia.
    assert (Hnl : count_nl (substring (source s) (current s) e)
                  = count_nl body).
    { rewrite Hhead, count_nl_append. reflexivity. }
    eexists (mkSegment (current s) e (KError _ _)).
    step_open. exists ([current s] ++ L)%list.
    split; [read_then Hlt HL|]. step_core.
    now rewrite Hnl.
  - pose proof (run_length_stops (not_char "034")
                  (drop (current s + 1) (source s))) as Hstop.
    fold run in Hstop. rewrite drop_drop in Hstop. fold e in Hstop.
    rewrite Hd in Hstop. cbn [stops] in Hstop.
    apply drop_cons in Hd as [Hg2 _].
    pose proof (get_some_lt _ _ _ Hg2) as Hlt2.
    assert (Hd' : d = "034"%char).
    { unfold not_char in Hstop. rewrite negb_involutive in Hstop.
      now apply Ascii.eqb_eq. }
    subst d.
    assert (Hnl : count_nl (substring (source s) (current s) (e + 1))
                  = count_nl body).
    { rewrite (substring_split _ _ e) by lia.
      rewrite Hhead, !count_nl_append, (substring_S _ _ _ Hg2).
      simpl. lia. }
    eexists (mkSegment (current s) (e + 1) (KToken _)).
    step_open. exists ([current s] ++ L)%list.
    split; [read_then Hlt HL|]. step_core.
    rewrite ?Hnl. repeat split; auto; try discriminate.
    + intros H. now elim H.
    + replace (e + 1 - 1) with e by lia.
      now rewrite (substring_S _ _ _ Hg2).
Qed.

(** ** One turn of the main loop *)

Ltac split_char c :=
  match goal with
  | |- context [if Ascii.eqb c ?x then _ else _] =>
      destruct (Ascii.eqb_spec c x) as [?|?]; [subst c|]
  end.

Ltac single_token Hg :=
  eexists; apply (step_single _ _ _ Hg); [reflexivity|discriminate].

Lemma main_body_step (s : Scanner) :
  current s < String.length (source s) ->
  exists g, step_to s g (main_body s).
Proof.
  intros Hlt. destruct (get_lt _ _ Hlt) as [c Hg].
  unfold main_body, scanToken.
  erewrite advance_char by (fields; exact Hg).
  change (set_current (current (set_start (current s) s) + 1)
            (log_reads [current (set_start (current s) s)]
               (set_start (current s) s)))
    with (after_advance s).
  unfold CR, TAB, LF, DQUOTE. rewrite !eqb_char.
  rewrite isDigit_char, isAlpha_char.
  do 10 (split_char c; [single_token Hg|]).
  do 4 (split_char c;
        [apply (step_operator _ _ _ _ Hg); [reflexivity|discriminate..]|]).
  split_char c; [now apply step_slash|].
  assert (Hblank : forall x, c = x ->
            Ascii.eqb x "010" = false ->
            (String x EmptyString = " " \/ String x EmptyString = CR
             \/ String x EmptyString = TAB) ->
            exists g, step_to s g (after_advance s)).
  { intros x -> Hx Hkind.
    assert (Hnl : count_nl (substring (source s) (current s) (current s + 1))
                  = 0).
    { rewrite (substring_S _ _ _ Hg). simpl. now rewrite Hx. }
    exists (mkSegment (current s) (current s + 1) KBlank).
    step_open. exists [current s].
    split; [one_read Hlt|]. step_core.
    rewrite (substring_S _ _ _ Hg); exact Hkind. }
  destruct (Ascii.eqb_spec c " ") as [E|_];
    [apply (Hblank " "%char); auto|].
  destruct (Ascii.eqb_spec c "013") as [E|_];
    [apply (Hblank "013"%char); auto|].
  destruct (Ascii.eqb_spec c "009") as [E|_];
    [apply (Hblank "009"%char); auto|].
  cbn [orb]. clear Hblank.
  split_char c.
  { assert (Hnl : count_nl (substring (source s) (current s) (current s + 1))
                  = 1).
    { rewrite (substring_S _ _ _ Hg). reflexivity. }
    exists (mkSegment (current s) (current s + 1) KNewline).
    step_open. exists [current s].
    split; [one_read Hlt|]. step_core.
    rewrite (substring_S _ _ _ Hg); reflexivity. }
  split_char c; [now apply step_string|].
  destruct (is_digit c) eqn:Hdig; [now apply (step_number _ c)|].
  destruct (is_alpha c) eqn:Halpha; [now apply (step_identifier _ c)|].
  assert (Hnl : count_nl (substring (source s) (current s) (current s + 1))
                = 0).
  { rewrite (substring_S _ _ _ Hg). simpl.
    now replace (Ascii.eqb c "010") with false
      by (symmetry; now apply Ascii.eqb_neq). }
  eexists (mkSegment (current s) (current s + 1) (KError _ _)).
  step_open. exists [current s].
  split; [one_read Hlt|]. step_core.
  now rewrite Hnl.
Qed.

(** ** The main loop *)

Lemma line_after_split (src : String.string) (n m : nat) :
  n <= m -> m <= String.length src ->
  line_after src m = line_after src n + count_nl (substring src n m).
Proof.
  intros Hnm Hm. unfold line_after.
  rewrite (substring_split src 0 n m) by lia.
  rewrite count_nl_append. lia.
Qed.

Lemma line_after_mono (src : String.string) (n m : nat) :
  n <= m -> m <= String.length src -> line_after src n <= line_after src m.
Proof. intros Hnm Hm. rewrite (line_after_split src n m) by lia. lia. Qed.

Lemma seg_tokens_cons (g : Segment) (segs : list Segment) :
  seg_tokens (g :: segs) = (seg_tokens [g] ++ seg_tokens segs)%list.
Proof. simpl. now destruct (seg_kind g). Qed.

Lemma seg_errors_cons (g : Segment) (segs : list Segment) :
  seg_errors (g :: segs) = (seg_errors [g] ++ seg_errors segs)%list.
Proof. simpl. now destruct (seg_kind g). Qed.

Lemma apply_kind_fields (g : Segment) (st : Scanner) :
  source (apply_kind (seg_kind g) st) = source st
  /\ tokens (apply_kind (seg_kind g) st) = (tokens st ++ seg_tokens [g])%list
  /\ errors (apply_kind (seg_kind g) st) = (errors st ++ seg_errors [g])%list
  /\ reads (apply_kind (seg_kind g) st) = reads st
  /\ current (apply_kind (seg_kind g) st) = current st
  /\ line (apply_kind (seg_kind g) st) = line st.
Proof.
  simpl. destruct (seg_kind g); simpl; rewrite ?app_nil_r; repeat split.
Qed.

Lemma seg_step_ok_global (src : String.string) (g : Segment) :
  seg_start g <= seg_end g -> seg_end g <= String.length src ->
  seg_step_ok src (line_after src (seg_start g)) g -> seg_ok src g.
Proof.
  intros H1 H2. unfold seg_step_ok, seg_ok, seg_text.
  rewrite (line_after_split src (seg_start g) (seg_end g)) by lia.
  destruct (seg_kind g); auto.
  intros (Hlex & Hl & Hty & Hnl & Hlast). rewrite Hlex. auto.
Qed.

Lemma main_loop (fuel : nat) (s : Scanner) :
  current s <= String.length (source s) ->
  line s = line_after (source s) (current s) ->
  String.length (source s) - current s < fuel ->
  exists segs L,
    chained (current s) segs (String.length (source s))
    /\ Forall (seg_ok (source s)) segs
    /\ Forall (fun i => i < String.length (source s)) L
    /\ loop_outcome s (while_ fuel main_cond main_body s) segs L
    /\ while_rel main_cond main_body s (while_ fuel main_cond main_body s).
Proof.
  revert s; induction fuel as [|fuel IH]; intros s Hle Hline Hf; [lia|].
  assert (Hstep : while_ (S fuel) main_cond main_body s
                  = if isAtEnd s then s
                    else while_ fuel main_cond main_body (main_body s)).
  { cbn [while_]. unfold main_cond. now destruct (isAtEnd s). }
  rewrite Hstep. clear Hstep.
  destruct (isAtEnd s) eqn:He.
  - apply isAtEnd_true in He.
    exists [], []. unfold loop_outcome. cbn [chained seg_tokens seg_errors].
    rewrite !app_nil_r.
    repeat split; auto; try lia.
    + rewrite Hline. f_equal. lia.
    + apply while_exit. unfold main_cond.
      now replace (isAtEnd s) with true by (symmetry; now apply isAtEnd_true).
  - apply isAtEnd_false in He.
    destruct (main_body_step s He)
      as (g & L0 & HL0 & Hgs & Hge & Hgl & Heq & Hok).
    pose proof (apply_kind_fields g
                  (set_line (line s + count_nl (seg_text (source s) g))
                     (set_current (seg_end g) (set_start (current s) s))))
      as (Ksrc & Ktok & Kerr & Krd & Kcur & Kline).
    cbn [source tokens start current line errors reads set_start
         set_current set_line] in Ksrc, Ktok, Kerr, Krd, Kcur, Kline.
    assert (Hsrc : source (main_body s) = source s).
    { rewrite Heq. cbn [source log_reads]. now rewrite Ksrc. }
    assert (Hcur : current (main_body s) = seg_end g).
    { rewrite Heq. cbn [current log_reads]. now rewrite Kcur. }
    assert (Hln : line (main_body s) = line_after (source s) (seg_end g)).
    { rewrite Heq. cbn [line log_reads]. rewrite Kline. fields.
      rewrite Hline. unfold seg_text. rewrite <- Hgs.
      symmetry. apply line_after_split; lia. }
    assert (Htok : tokens (main_body s) = (tokens s ++ seg_tokens [g])%list).
    { rewrite Heq. cbn [tokens log_reads]. now rewrite Ktok. }
    assert (Herr : errors (main_body s) = (errors s ++ seg_errors [g])%list).
    { rewrite Heq. cbn [errors log_reads]. now rewrite Kerr. }
    assert (Hrd : reads (main_body s) = (reads s ++ L0)%list).
    { rewrite Heq. cbn [reads log_reads]. now rewrite Krd. }
    destruct (IH (main_body s)) as (segs & L & Hch & Hall & HL & Hout & Hrel).
    { rewrite Hsrc, Hcur. exact Hgl. }
    { rewrite Hsrc, Hcur. exact Hln. }
    { rewrite Hsrc, Hcur. lia. }
    destruct Hout as (O1 & O2 & O3 & O4 & O5 & O6).
    rewrite Hsrc in *. rewrite Hcur in Hch.
    exists (g :: segs), (L0 ++ L)%list.
    split; [|split; [|split; [|split]]].
    + cbn [chained]. auto.
    + constructor; auto. apply seg_step_ok_global; try lia.
      rewrite Hgs, <- Hline. exact Hok.
    + apply Forall_app; split; auto.
    + unfold loop_outcome.
      rewrite O1, O2, O3, O4, O5, O6, seg_tokens_cons, seg_errors_cons.
      rewrite Htok, Herr, Hrd, <- !app_assoc.
      repeat split; reflexivity.
    + eapply while_turn; [|exact Hrel]. unfold main_cond.
      now replace (isAtEnd s) with false by (symmetry; now apply isAtEnd_false).
Qed.

(** The whole scan: the source is tiled by segments, the tokens and the
    reports are those of the segments in order, and one [EOF] follows. *)
Lemma scan_segmentation (src : String.string) :
  exists segs L,
    chained 0 segs (String.length src)
    /\ Forall (seg_ok src) segs
    /\ Forall (fun i => i < String.length src) L
    /\ scan src
       = (seg_tokens segs
          ++ [mkToken EOF "" LNull (line_after src (String.length src))])%list
    /\ errors (scanTokens_run (new_Scanner src)) = seg_errors segs
    /\ reads (scanTokens_run (new_Scanner src)) = L
    /\ current (scanTokens_run (new_Scanner src)) = String.length src
    /\ line (scanTokens_run (new_Scanner src))
       = line_after src (String.length src).
Proof.
  destruct (main_loop (budget (new_Scanner src)) (new_Scanner src))
    as (segs & L & Hch & Hall & HL & Hout & _).
  - simpl. lia.
  - unfold line_after. cbn [line current new_Scanner source].
    now rewrite substring_empty.
  - unfold budget. lia.
  - destruct Hout as (O1 & O2 & O3 & O4 & O5 & O6).
    exists segs, L. unfold scan, scanTokens, scanTokens_run.
    cbn [tokens errors reads current line push_token].
    rewrite O2, O3, O4, O5, O6. cbn [source new_Scanner tokens errors reads] in *.
    repeat split; auto.
Qed.

(** ** Consequences of the segmentation *)

Lemma chained_le (src : String.string) (segs : list Segment) (a b : nat) :
  chained a segs b -> a <= b.
Proof.
  revert a; induction segs as [|g segs IH]; cbn [chained]; intros a.
  - lia.
  - intros (_ & Hlt & Hch). specialize (IH _ Hch). lia.
Qed.

Lemma chained_join (src : String.string) (segs : list Segment) (a b : nat) :
  chained a segs b -> b <= String.length src ->
  join (map (seg_text src) segs) = substring src a b.
Proof.
  revert a; induction segs as [|g segs IH]; cbn [chained]; intros a.
  - intros <- _. now rewrite substring_empty.
  - intros (Hs & Hlt & Hch) Hb. cbn [map join fold_right].
    pose proof (chained_le src _ _ _ Hch) as Hle.
    fold (join (map (seg_text src) segs)). rewrite (IH _ Hch Hb).
    unfold seg_text. rewrite Hs.
    symmetry. apply substring_split; lia.
Qed.

Lemma chained_bounds (segs : list Segment) (a b : nat) (g : Segment) :
  chained a segs b -> In g segs ->
  a <= seg_start g /\ seg_start g < seg_end g /\ seg_end g <= b.
Proof.
  revert a; induction segs as [|h segs IH]; cbn [chained]; intros a.
  - intros _ [].
  - intros (Hs & Hlt & Hch) [->|Hin].
    + pose proof (chained_le "" _ _ _ Hch). lia.
    + destruct (IH _ Hch Hin) as (H1 & H2 & H3). lia.
Qed.

Lemma seg_tokens_In (segs : list Segment) (t : Token) :
  In t (seg_tokens segs) <-> exists g, In g segs /\ seg_kind g = KToken t.
Proof.
  induction segs as [|h segs IH]; cbn [seg_tokens].
  - split; [intros []|intros (g & [] & _)].
  - destruct (seg_kind h) eqn:Hk; cbn [In]; rewrite ?IH; split.
    all: try (intros (g & Hin & Hg); exists g; split; [now right|exact Hg]).
    all: try (intros (g & [->|Hin] & Hg);
              [congruence | exists g; split; assumption]).
    + intros [->|(g & Hin & Hg)]; [exists h; split; [now left|exact Hk]|].
      exists g; split; [now right|exact Hg].
    + intros (g & [->|Hin] & Hg); [left; congruence|].
      right. exists g; split; assumption.
Qed.

Lemma seg_tokens_not_EOF (src : String.string) (segs : list Segment) :
  Forall (seg_ok src) segs ->
  Forall (fun t => type t <> EOF) (seg_tokens segs).
Proof.
  intros Hall. apply Forall_forall. intros t Ht.
  apply seg_tokens_In in Ht as (g & Hin & Hk).
  rewrite Forall_forall in Hall. specialize (Hall _ Hin).
  unfold seg_ok in Hall. rewrite Hk in Hall. tauto.
Qed.

Lemma seg_errors_nil (segs : list Segment) :
  seg_errors segs = [] -> Forall (fun g => is_error g = false) segs.
Proof.
  induction segs as [|g segs IH]; cbn [seg_errors]; intros H; constructor.
  - unfold is_error. now destruct (seg_kind g).
  - apply IH. now destruct (seg_kind g).
Qed.

Lemma seg_lines_sorted (src : String.string) (segs : list Segment) (a : nat) :
  chained a segs (String.length src) -> Forall (seg_ok src) segs ->
  let l := (seg_tokens segs
            ++ [eof_token (line_after src (String.length src))])%list in
  lines_sorted l /\ Forall (fun t => line_after src a <= tline t) l.
Proof.
  revert a; induction segs as [|g segs IH]; cbn [chained]; intros a.
  - intros <- _. cbn. repeat split; auto.
  - intros (Hs & Hlt & Hch) Hall. inversion Hall as [|? ? Hg Hall']; subst.
    destruct (IH _ Hch Hall') as (Hsorted & Hlow).
    pose proof (chained_le src _ _ _ Hch) as Hle.
    assert (Hmono : line_after src (seg_start g) <= line_after src (seg_end g))
      by (apply line_after_mono; lia).
    assert (Hlow' : Forall (fun t => line_after src (seg_start g) <= tline t)
                      (seg_tokens segs
                       ++ [eof_token (line_after src (String.length src))])).
    { eapply Forall_impl; [|exact Hlow]. intros t0 Ht0. cbv beta in *. lia. }
    cbn [seg_tokens]. unfold seg_ok in Hg.
    destruct (seg_kind g) as [t| | | |ln msg]; try (split; assumption).
    destruct Hg as (_ & Hline & _).
    cbn [app lines_sorted]. split; [split; [|exact Hsorted]|].
    + destruct (seg_tokens segs ++ _)%list as [|t' rest] eqn:E; auto.
      inversion Hlow; subst. lia.
    + constructor; [lia|exact Hlow'].
Qed.

(** ** Every loop comes to an end *)

Lemma inner_loops_end (s : Scanner) :
  while_rel string_cond string_body s
    (while_ (budget s) string_cond string_body s)
  /\ while_rel digit_cond advance_body s
       (while_ (budget s) digit_cond advance_body s)
  /\ while_rel alnum_cond advance_body s
       (while_ (budget s) alnum_cond advance_body s)
  /\ while_rel comment_cond advance_body s
       (while_ (budget s) comment_cond advance_body s).
Proof.
  destruct (string_loop s) as (_ & _ & _ & H1).
  destruct (digit_loop s) as (_ & _ & _ & H2).
  destruct (alnum_loop s) as (_ & _ & _ & H3).
  destruct (comment_loop s) as (_ & _ & _ & H4).
  auto.
Qed.

(** * The claims *)

(** C1: for every input, [scanTokens] terminates (the main loop and each
    inner loop has a finite derivation in the fuel-free semantics
    [while_rel], ending at the end of the source) and returns a list whose
    last element is the [EOF] token with the empty lexeme; no other token
    of the list has type [EOF]. *)
Theorem scanTokens_ends_with_single_EOF (src : String.string) :
  (exists s1,
      while_rel main_cond main_body (new_Scanner src) s1
      /\ isAtEnd s1 = true
      /\ scanTokens_run (new_Scanner src) = push_token (eof_token (line s1)) s1)
  /\ (forall s,
        while_rel string_cond string_body s
          (while_ (budget s) string_cond string_body s)
        /\ while_rel digit_cond advance_body s
             (while_ (budget s) digit_cond advance_body s)
        /\ while_rel alnum_cond advance_body s
             (while_ (budget s) alnum_cond advance_body s)
        /\ while_rel comment_cond advance_body s
             (while_ (budget s) comment_cond advance_body s))
  /\ exists toks ln,
       scan src = (toks ++ [eof_token ln])%list
       /\ lexeme (eof_token ln) = EmptyString
       /\ Forall (fun t => type t <> EOF) toks.
Proof.
  split; [|split; [exact inner_loops_end|]].
  - destruct (main_loop (budget (new_Scanner src)) (new_Scanner src))
      as (segs & L & _ & _ & _ & Hout & Hrel).
    + simpl; lia.
    + unfold line_after. cbn [line current new_Scanner source].
      now rewrite substring_empty.
    + unfold budget; lia.
    + eexists. split; [exact Hrel|]. split; [|reflexivity].
      destruct Hout as (O1 & _ & _ & _ & O5 & _).
      apply isAtEnd_true. rewrite O1, O5. lia.
  - destruct (scan_segmentation src)
      as (segs & L & Hch & Hall & _ & Hscan & _).
    exists (seg_tokens segs), (line_after src (String.length src)).
    split; [exact Hscan|]. split; [reflexivity|].
    now apply (seg_tokens_not_EOF src).
Qed.

(** C4: when a scan reports no lexical error, the source is tiled, left to
    right and without gap or overlap, by segments that are either the
    lexeme of an emitted token (in the order of emission, every token but
    [EOF] having its segment) or a discarded blank, line feed or comment;
    joining the texts of the segments in order gives back the source. *)
Theorem lexemes_and_discards_rebuild_source (src : String.string) :
  errors (scanTokens_run (new_Scanner src)) = [] ->
  exists segs,
    chained 0 segs (String.length src)
    /\ scan src
       = (seg_tokens segs
          ++ [eof_token (line_after src (String.length src))])%list
    /\ Forall (fun g => is_error g = false /\ seg_ok src g) segs
    /\ join (map (seg_text src) segs) = src.
Proof.
  intros Herr.
  destruct (scan_segmentation src)
    as (segs & L & Hch & Hall & _ & Hscan & Herrs & _).
  exists segs. split; [exact Hch|]. split; [exact Hscan|]. split.
  - rewrite Herr in Herrs. symmetry in Herrs.
    apply seg_errors_nil in Herrs.
    rewrite Forall_forall in *. intros g Hg. split; auto.
  - rewrite (chained_join src segs 0 (String.length src) Hch) by lia.
    apply substring_full.
Qed.

Lemma lexemes_and_discards_rebuild_source_witness :
  errors (scanTokens_run (new_Scanner example_program)) = []
  /\ exists segs,
       chained 0 segs (String.length example_program)
       /\ scan example_program
          = (seg_tokens segs
             ++ [eof_token (line_after example_program
                              (String.length example_program))])%list
       /\ Forall (fun g => is_error g = false /\ seg_ok example_program g) segs
       /\ join (map (seg_text example_program) segs) = example_program.
Proof.
  split; [reflexivity|].
  apply (lexemes_and_discards_rebuild_source example_program). reflexivity.
Defined.

(** C3, the claim as stated fails: the string literal [two_line_string]
    starts at index 0, on line 1, and spans two lines; its token is
    emitted with line 2, the line of its closing quote. *)
Lemma string_token_line_counterexample :
  exists t,
    scan two_line_string = [t; eof_token 2]
    /\ type t = STRING
    /\ lexeme t = substring two_line_string 0 (String.length two_line_string)
    /\ line_after two_line_string 0 = 1
    /\ tline t = 2
    /\ tline t <> line_after two_line_string 0.
Proof.
  eexists. split; [vm_compute; reflexivity|].
  repeat split; try reflexivity. cbn. discriminate.
Qed.

(** C3, amended: every token but [EOF] has a segment of the source as its
    lexeme, and the line it records is the line the scanner is on when the
    lexeme has been consumed, which is the line on which its last
    character was consumed: the line of its first character plus the line
    feeds inside the lexeme.  A lexeme other than a string literal holds
    no line feed, so such a token records the line of its first character;
    a string literal spanning lines records the line of its closing
    quote. *)
Theorem token_line_is_line_at_lexeme_end (src : String.string) :
  exists segs,
    chained 0 segs (String.length src)
    /\ scan src
       = (seg_tokens segs
          ++ [eof_token (line_after src (String.length src))])%list
    /\ forall g t,
         In g segs -> seg_kind g = KToken t ->
         lexeme t = substring src (seg_start g) (seg_end g)
         /\ tline t = line_after src (seg_end g)
         /\ tline t = line_after src (seg_end g - 1)
         /\ tline t = line_after src (seg_start g) + count_nl (lexeme t)
         /\ (type t <> STRING -> tline t = line_after src (seg_start g)).
Proof.
  destruct (scan_segmentation src)
    as (segs & L & Hch & Hall & _ & Hscan & _).
  exists segs. split; [exact Hch|]. split; [exact Hscan|].
  intros g t Hin Hk.
  destruct (chained_bounds _ _ _ _ Hch Hin) as (_ & Hlt & Hle).
  rewrite Forall_forall in Hall. specialize (Hall _ Hin).
  unfold seg_ok in Hall. rewrite Hk in Hall.
  destruct Hall as (Hlex & Hline & _ & Hnl & Hlast).
  unfold seg_text in Hlex.
  assert (Hsum : tline t = line_after src (seg_start g) + count_nl (lexeme t)).
  { rewrite Hline, Hlex. apply line_after_split; lia. }
  repeat split; auto.
  - rewrite Hline.
    rewrite (line_after_split src (seg_end g - 1) (seg_end g)) by lia.
    lia.
  - intros Hty. rewrite Hsum, (Hnl Hty). lia.
Qed.

(** One turn of the main loop adds to the line counter the number of line
    feeds among the characters it consumes, and consumes at least one. *)
Lemma main_body_line (s : Scanner) :
  current s < String.length (source s) ->
  current s < current (main_body s)
  /\ current (main_body s) <= String.length (source s)
  /\ line (main_body s)
     = line s
       + count_nl (substring (source s) (current s) (current (main_body s))).
Proof.
  intros Hlt.
  destruct (main_body_step s Hlt) as (g & L & _ & Hs & Hlo & Hhi & Heq & _).
  pose proof (apply_kind_fields g
                (set_line (line s + count_nl (seg_text (source s) g))
                   (set_current (seg_end g) (set_start (current s) s))))
    as (_ & _ & _ & _ & Kcur & Kline).
  cbn [current line set_start set_current set_line] in Kcur, Kline.
  rewrite Heq. cbn [current line log_reads]. rewrite Kcur, Kline.
  unfold seg_text. rewrite Hs. auto.
Qed.

(** C5, the claim as stated fails: in [print_two_lines] the string literal
    starts at index 6, before which no line feed was consumed, and its
    token is emitted with line 2. *)
Lemma token_line_counts_own_newlines_counterexample :
  exists t,
    nth_error (scan print_two_lines) 1 = Some t
    /\ type t = STRING
    /\ lexeme t = substring print_two_lines 6 11
    /\ count_nl (substring print_two_lines 0 6) = 0
    /\ tline t = 2
    /\ tline t <> 1 + count_nl (substring print_two_lines 0 6).
Proof.
  eexists. split; [vm_compute; reflexivity|].
  repeat split; try reflexivity. cbn. discriminate.
Qed.

(** C5, amended: the line counter starts at 1; each turn of the main loop
    adds to it the number of line feeds it consumes, so the scan ends on
    line 1 plus the number of line feeds of the source; the lines of the
    emitted tokens never decrease; and each token's line is 1 plus the
    number of line feeds consumed up to the end of its lexeme (those inside
    a string literal included), which for every token other than a string
    literal is the number consumed before its first character. *)
Theorem token_lines_sorted_and_count_consumed_newlines (src : String.string) :
  line (new_Scanner src) = 1
  /\ (forall s,
        current s < String.length (source s) ->
        line (main_body s)
        = line s
          + count_nl (substring (source s) (current s)
                        (current (main_body s))))
  /\ line (scanTokens_run (new_Scanner src)) = 1 + count_nl src
  /\ lines_sorted (scan src)
  /\ exists segs,
       chained 0 segs (String.length src)
       /\ scan src = (seg_tokens segs ++ [eof_token (1 + count_nl src)])%list
       /\ forall g t,
            In g segs -> seg_kind g = KToken t ->
            lexeme t = substring src (seg_start g) (seg_end g)
            /\ tline t = 1 + count_nl (substring src 0 (seg_end g))
            /\ (type t <> STRING ->
                tline t = 1 + count_nl (substring src 0 (seg_start g))).
Proof.
  destruct (scan_segmentation src)
    as (segs & L & Hch & Hall & _ & Hscan & _ & _ & _ & Hline).
  assert (Hfull : line_after src (String.length src) = 1 + count_nl src).
  { unfold line_after. now rewrite substring_full. }
  split; [reflexivity|]. split; [intros s Hs; now apply main_body_line|].
  split; [now rewrite Hline|]. split.
  - rewrite Hscan. now apply (seg_lines_sorted src segs 0).
  - exists segs. split; [exact Hch|]. split; [now rewrite Hscan, Hfull|].
    intros g t Hin Hk.
    rewrite Forall_forall in Hall. specialize (Hall _ Hin).
    unfold seg_ok in Hall. rewrite Hk in Hall.
    destruct Hall as (Hlex & Hl & _ & Hnl & _).
    split; [exact Hlex|]. split; [exact Hl|].
    intros Hty. specialize (Hnl Hty). rewrite Hlex in Hnl.
    destruct (chained_bounds _ _ _ _ Hch Hin) as (_ & Hlt & Hle).
    rewrite Hl. unfold seg_text in Hnl.
    rewrite (line_after_split src (seg_start g) (seg_end g)) by lia.
    unfold line_after. lia.
Qed.

(** ** Which branch a character selects *)

Ltac enter_branch Hg :=
  unfold main_body, scanToken;
  erewrite advance_char by (fields; exact Hg);
  match goal with
  | |- context [set_current (current (set_start (current ?s) ?s) + 1) ?x] =>
      change (set_current (current (set_start (current s) s) + 1) x)
        with (after_advance s);
      generalize (after_advance s)
  end.

Lemma main_body_digit (s : Scanner) (c : ascii) :
  String.get (current s) (source s) = Some c -> is_digit c = true ->
  main_body s = number (after_advance s).
Proof.
  intros Hg Hc. enter_branch Hg. clear Hg. intros st. revert Hc.
  destruct c as [[] [] [] [] [] [] [] []]; intros Hc;
    first [discriminate Hc | reflexivity].
Qed.

Lemma main_body_alpha (s : Scanner) (c : ascii) :
  String.get (current s) (source s) = Some c -> is_alpha c = true ->
  main_body s = identifier (after_advance s).
Proof.
  intros Hg Hc. enter_branch Hg. clear Hg. intros st. revert Hc.
  destruct c as [[] [] [] [] [] [] [] []]; intros Hc;
    first [discriminate Hc | reflexivity].
Qed.

Lemma main_body_unexpected (s : Scanner) (c : ascii) :
  String.get (current s) (source s) = Some c -> lexeme_start c = false ->
  main_body s
  = Lox_error (line (after_advance s)) "Unexpected character."
      (after_advance s).
Proof.
  intros Hg Hc. enter_branch Hg. clear Hg. intros st. revert Hc.
  destruct c as [[] [] [] [] [] [] [] []]; intros Hc;
    first [discriminate Hc | reflexivity].
Qed.

Lemma main_body_operator (s : Scanner) (c : ascii) (two one : TokenType) :
  String.get (current s) (source s) = Some c ->
  In (c, two, one) equal_operators ->
  main_body s = operator two one (after_advance s).
Proof.
  intros Hg Hc. enter_branch Hg. clear Hg. intros st.
  unfold equal_operators in Hc. cbn [In] in Hc.
  repeat destruct Hc as [Hc|Hc]; try contradiction;
    injection Hc as <- <- <-; reflexivity.
Qed.

Lemma main_body_slash (s : Scanner) :
  String.get (current s) (source s) = Some "/"%char ->
  main_body s
  = (let (m, s1) := match_ "/" (after_advance s) in
     if m then while_ (budget s1) comment_cond advance_body s1
     else addToken SLASH LNull s1).
Proof. intros Hg. enter_branch Hg. reflexivity. Qed.

Lemma main_body_quote (s : Scanner) :
  String.get (current s) (source s) = Some "034"%char ->
  main_body s = string (after_advance s).
Proof. intros Hg. enter_branch Hg. reflexivity. Qed.

(** ** A lexeme in its place in the source *)

Lemma get_append_at (pre : String.string) (c : ascii) (rest : String.string) :
  String.get (String.length pre) (pre ++ String c rest) = Some c.
Proof. induction pre; simpl; auto. Qed.

Lemma drop_append_plus (pre str : String.string) (n : nat) :
  drop (String.length pre + n) (pre ++ str) = drop n str.
Proof. induction pre; simpl; auto. Qed.

Lemma substring_append_at (pre mid post : String.string) (n : nat) :
  n = String.length pre + String.length mid ->
  substring (pre ++ mid ++ post) (String.length pre) n = mid.
Proof. intros ->. apply substring_append_mid. Qed.

Lemma number_end_digits (pre run rest : String.string) :
  all_chars is_digit run = true -> stops is_digit rest = true ->
  number_end (pre ++ run ++ rest) (String.length pre)
  = match rest with
    | String "."%char (String d _) =>
        if is_digit d
        then String.length pre + String.length run + 1
             + run_length is_digit (drop 1 rest)
        else String.length pre + String.length run
    | _ => String.length pre + String.length run
    end.
Proof.
  intros Hrun Hstop. unfold number_end.
  rewrite drop_append, (run_length_append _ _ _ Hrun Hstop).
  rewrite drop_append_plus, drop_append.
  destruct rest as [|c [|d r]]; try reflexivity.
  destruct (Ascii.eqb_spec c ".") as [->|Hne].
  - destruct (is_digit d); [|reflexivity]. f_equal. f_equal.
    replace (String.length pre + String.length run + 1)
      with (String.length pre + (String.length run + 1)) by lia.
    rewrite drop_append_plus.
    replace (run ++ String "." (String d r))
      with ((run ++ ".") ++ String d r)
      by (now rewrite append_assoc).
    replace (String.length run + 1) with (String.length (run ++ ".") + 0)
      by (rewrite length_append; simpl; lia).
    rewrite drop_append_plus. reflexivity.
  - destruct c as [[] [] [] [] [] [] [] []]; try reflexivity. now elim Hne.
Qed.

Lemma all_chars_cons (p : ascii -> bool) (str : String.string) :
  str <> EmptyString -> all_chars p str = true ->
  exists c str', str = String c str' /\ p c = true /\ all_chars p str' = true.
Proof.
  destruct str as [|c str']; [congruence|]. cbn [all_chars].
  intros _ H. apply andb_prop in H as [H1 H2]. eauto.
Qed.

(** The turn of the main loop that meets a digit, in terms of where
    [number()] stops. *)
Lemma main_body_number (s : Scanner) (pre : String.string) (c : ascii)
    (tail : String.string) :
  source s = pre ++ String c tail -> current s = String.length pre ->
  is_digit c = true ->
  let e := number_end (source s) (String.length pre + 1) in
  let text := substring (source s) (String.length pre) e in
  emits s (main_body s) (mkToken NUMBER text (LNumber (parseFloat text)) (line s))
    e.
Proof.
  intros Hsrc Hcur Hc e text.
  assert (Hg : String.get (current s) (source s) = Some c).
  { rewrite Hsrc, Hcur. apply get_append_at. }
  rewrite (main_body_digit _ _ Hg Hc).
  destruct (number_spec (after_advance s)) as (L & _ & Heq). rewrite Heq.
  unfold emits, after_advance. fields. subst e text. rewrite Hcur.
  repeat split.
Qed.

(** ** What [parseFloat] returns on the texts [number()] builds *)

Lemma read_digits_run (acc : Z) (cnt : nat) (run rest : String.string) :
  all_chars is_digit run = true -> stops is_digit rest = true ->
  read_digits acc cnt (run ++ rest)
  = (digits_value acc run, cnt + String.length run, rest).
Proof.
  revert acc cnt; induction run as [|c run IH]; intros acc cnt Hrun Hstop.
  - cbn [append digits_value String.length]. rewrite Nat.add_0_r.
    destruct rest as [|c rest]; [reflexivity|].
    cbn [stops] in Hstop. cbn [read_digits]. unfold digit_value.
    unfold is_digit in Hstop. now destruct (_ && _).
  - cbn [all_chars] in Hrun. apply andb_prop in Hrun as [Hc Hrun].
    cbn [append read_digits digits_value String.length].
    unfold digit_value. unfold is_digit in Hc. rewrite Hc.
    rewrite (IH _ _ Hrun Hstop). f_equal. f_equal. lia.
Qed.

Lemma digits_value_append (acc : Z) (a b : String.string) :
  all_chars is_digit a = true ->
  digits_value acc (a ++ b) = digits_value (digits_value acc a) b.
Proof.
  revert acc; induction a as [|c a IH]; intros acc Ha; [reflexivity|].
  cbn [all_chars] in Ha. apply andb_prop in Ha as [Hc Ha].
  cbn [append digits_value]. unfold digit_value.
  unfold is_digit in Hc. rewrite Hc. now apply IH.
Qed.

(** On a run of digits [parseFloat] returns the binary64 nearest to the
    integer they denote; on digits, a point and digits, the binary64
    nearest to the integer denoted by all the digits, divided by ten to
    the number of digits after the point. *)
Lemma parseFloat_digits (ds : String.string) :
  ds <> EmptyString -> all_chars is_digit ds = true ->
  parseFloat ds = decimal_to_float (digits_value 0 ds) 0.
Proof.
  intros Hne Hds. unfold parseFloat.
  rewrite <- (append_nil_r ds) at 1.
  rewrite (read_digits_run 0 0 ds "" Hds eq_refl).
  destruct ds; [congruence|reflexivity].
Qed.

Lemma parseFloat_fraction (ds fs : String.string) :
  all_chars is_digit ds = true ->
  fs <> EmptyString -> all_chars is_digit fs = true ->
  parseFloat (ds ++ "." ++ fs)
  = decimal_to_float (digits_value 0 (ds ++ fs)) (String.length fs).
Proof.
  intros Hds Hne Hfs. unfold parseFloat.
  rewrite (read_digits_run 0 0 ds ("." ++ fs) Hds eq_refl).
  cbn [append]. rewrite <- (append_nil_r fs) at 1.
  rewrite (read_digits_run _ _ fs "" Hfs eq_refl).
  rewrite (digits_value_append _ _ _ Hds).
  destruct fs as [|f fs]; [congruence|].
  cbn [String.length]. rewrite Nat.add_succ_r.
  replace (S (0 + String.length ds + String.length fs)
           - (0 + String.length ds))
    with (S (String.length fs)) by lia.
  reflexivity.
Qed.

Lemma fraction_match (rest : String.string) (x y : nat) :
  match rest with
  | String "."%char (String d _) => if is_digit d then x else y
  | _ => y
  end = if fraction_follows rest then x else y.
Proof.
  destruct rest as [|c [|d r]]; try reflexivity.
  - destruct c as [[] [] [] [] [] [] [] []]; reflexivity.
  - destruct c as [[] [] [] [] [] [] [] []]; try reflexivity.
Qed.

(** C6: when the main loop meets a maximal run of digits [ds], followed by
    [rest] that does not start with a digit, [number()] consumes the run;
    it consumes a point and a second maximal run of digits [fs] exactly
    when the point is directly followed by a digit; and it emits one
    [NUMBER] token whose lexeme is the text consumed and whose literal is
    [parseFloat] of that text, the binary64 nearest to the decimal the
    digits denote.  So [1.5] gives one [NUMBER] with literal 1.5, and [1.]
    gives [NUMBER] 1 followed by [DOT]. *)
Theorem number_extraction_maximal_munch (s : Scanner)
    (pre ds rest : String.string) :
  source s = pre ++ ds ++ rest ->
  current s = String.length pre ->
  ds <> EmptyString ->
  all_chars is_digit ds = true ->
  stops is_digit rest = true ->
  (fraction_follows rest = false ->
   emits s (main_body s)
     (mkToken NUMBER ds (LNumber (parseFloat ds)) (line s))
     (String.length pre + String.length ds)
   /\ parseFloat ds = decimal_to_float (digits_value 0 ds) 0)
  /\ (forall fs rest',
        rest = "." ++ fs ++ rest' ->
        fs <> EmptyString ->
        all_chars is_digit fs = true ->
        stops is_digit rest' = true ->
        emits s (main_body s)
          (mkToken NUMBER (ds ++ "." ++ fs)
             (LNumber (parseFloat (ds ++ "." ++ fs))) (line s))
          (String.length pre + String.length ds + 1 + String.length fs)
        /\ parseFloat (ds ++ "." ++ fs)
           = decimal_to_float (digits_value 0 (ds ++ fs)) (String.length fs))
  /\ scan "1.5" = [mkToken NUMBER "1.5" (LNumber float_1_5) 1; eof_token 1]
  /\ scan "1."
     = [mkToken NUMBER "1" (LNumber float_1) 1; mkToken DOT "." LNull 1;
        eof_token 1].
Proof.
  intros Hsrc Hcur Hne Hds Hstop.
  destruct (all_chars_cons _ _ Hne Hds) as (d0 & ds' & -> & Hd0 & Hds').
  pose proof (main_body_number s pre d0 (ds' ++ rest) Hsrc Hcur Hd0) as Hnum.
  cbv zeta in Hnum.
  assert (Hend : number_end (source s) (String.length pre + 1)
                 = if fraction_follows rest
                   then String.length pre + String.length (String d0 ds') + 1
                        + run_length is_digit (drop 1 rest)
                   else String.length pre + String.length (String d0 ds')).
  { rewrite Hsrc.
    replace (pre ++ String d0 ds' ++ rest)
      with ((pre ++ String d0 "") ++ ds' ++ rest)
      by (now rewrite append_assoc).
    replace (String.length pre + 1)
      with (String.length (pre ++ String d0 "")) at 1
      by (rewrite length_append; reflexivity).
    rewrite (number_end_digits _ _ _ Hds' Hstop), fraction_match.
    rewrite length_append. cbn [String.length].
    destruct (fraction_follows rest); lia. }
  rewrite Hend in Hnum. clear Hend.
  split; [|split; [|split; vm_compute; reflexivity]].
  - intros Hfrac. rewrite Hfrac in Hnum.
    assert (Htext : substring (source s) (String.length pre)
                      (String.length pre + String.length (String d0 ds'))
                    = String d0 ds').
    { rewrite Hsrc. now apply substring_append_at. }
    rewrite Htext in Hnum. split; [exact Hnum|].
    now apply parseFloat_digits.
  - intros fs rest' -> Hfs Hfsd Hstop'.
    pose proof (parseFloat_fraction _ _ Hds Hfs Hfsd) as Hfloat.
    destruct (all_chars_cons _ _ Hfs Hfsd) as (f0 & fs' & -> & Hf0 & Hfs').
    replace (fraction_follows ("." ++ String f0 fs' ++ rest')) with true
      in Hnum by (cbn; now rewrite Hf0).
    replace (drop 1 ("." ++ String f0 fs' ++ rest'))
      with (String f0 fs' ++ rest') in Hnum by reflexivity.
    rewrite (run_length_append _ _ _ Hfsd Hstop') in Hnum.
    assert (Hsrc' : source s
                    = pre ++ (String d0 ds' ++ "." ++ String f0 fs') ++ rest').
    { rewrite Hsrc. now rewrite !append_assoc. }
    assert (Htext : substring (source s) (String.length pre)
                      (String.length pre + String.length (String d0 ds') + 1
                       + String.length (String f0 fs'))
                    = String d0 ds' ++ "." ++ String f0 fs').
    { rewrite Hsrc'. apply substring_append_at.
      rewrite !length_append. cbn [String.length]. lia. }
    rewrite Htext in Hnum. split; [exact Hnum|exact Hfloat].
Qed.

Lemma number_extraction_maximal_munch_witness :
  emits (new_Scanner "12.5+3") (main_body (new_Scanner "12.5+3"))
    (mkToken NUMBER "12.5" (LNumber (parseFloat "12.5")) 1) 4.
Proof.
  destruct (number_extraction_maximal_munch
              (new_Scanner "12.5+3") "" "12" ".5+3")
    as (_ & Hfraction & _);
    [reflexivity | reflexivity | discriminate | reflexivity | reflexivity |].
  apply (Hfraction "5" "+3");
    [reflexivity | discriminate | reflexivity | reflexivity].
Defined.

(** ** The operators and the slash, with the indices they read *)

Lemma substring_first (pre : String.string) (c : ascii) (rest : String.string) :
  substring (pre ++ String c rest) (String.length pre) (String.length pre + 1)
  = String c EmptyString.
Proof.
  change (String c rest) with (String c "" ++ rest).
  now apply substring_append_at.
Qed.

Lemma substring_first_two (pre : String.string) (c d : ascii)
    (rest : String.string) :
  substring (pre ++ String c (String d rest)) (String.length pre)
            (String.length pre + 1 + 1)
  = String c (String d EmptyString).
Proof.
  change (String c (String d rest)) with (String c (String d "") ++ rest).
  apply substring_append_at. simpl. lia.
Qed.

Lemma get_append_next (pre : String.string) (c d : ascii)
    (rest : String.string) :
  String.get (String.length pre + 1) (pre ++ String c (String d rest)) = Some d.
Proof. induction pre; simpl; auto. Qed.

Lemma operator_turn (s : Scanner) (pre rest : String.string) (c : ascii)
    (two one : TokenType) :
  source s = pre ++ String c rest -> current s = String.length pre ->
  In (c, two, one) equal_operators ->
  let m := starts_with "=" rest in
  emits s (main_body s)
    (mkToken (if m then two else one)
       (if m then String c "=" else String c "") LNull (line s))
    (String.length pre + if m then 2 else 1)
  /\ reads (main_body s)
     = (reads s
        ++ String.length pre
           :: match rest with
              | EmptyString => []
              | String _ _ => [String.length pre + 1]
              end)%list.
Proof.
  intros Hsrc Hcur Hop m.
  assert (Hg : String.get (current s) (source s) = Some c).
  { rewrite Hsrc, Hcur. apply get_append_at. }
  rewrite (main_body_operator _ _ _ _ Hg Hop). unfold operator.
  destruct rest as [|d r].
  - rewrite match_end; [| |discriminate].
    + subst m. unfold emits, after_advance. fields.
      rewrite Hcur, Hsrc, substring_first. repeat split; try lia; f_equal; lia.
    + apply isAtEnd_true. unfold after_advance. fields.
      rewrite Hsrc, Hcur, length_append. simpl. lia.
  - change "=" with (String "="%char EmptyString).
    erewrite match_char
      by (unfold after_advance; fields; rewrite Hsrc, Hcur;
          apply get_append_next).
    subst m. cbn [starts_with]. unfold emits, after_advance.
    destruct (Ascii.eqb_spec d "=") as [->|Hne]; fields;
      rewrite Hcur, Hsrc, ?substring_first, ?substring_first_two,
        <- ?app_assoc;
      repeat split; try lia; f_equal; lia.
Qed.

Lemma slash_turn (s : Scanner) (pre rest : String.string) :
  source s = pre ++ String "/" rest -> current s = String.length pre ->
  starts_with "/" rest = false ->
  emits s (main_body s) (mkToken SLASH "/" LNull (line s))
    (String.length pre + 1)
  /\ reads (main_body s)
     = (reads s
        ++ String.length pre
           :: match rest with
              | EmptyString => []
              | String _ _ => [String.length pre + 1]
              end)%list.
Proof.
  intros Hsrc Hcur Hm.
  assert (Hg : String.get (current s) (source s) = Some "/"%char).
  { rewrite Hsrc, Hcur. apply get_append_at. }
  rewrite (main_body_slash _ Hg).
  destruct rest as [|d r].
  - rewrite match_end; [| |discriminate].
    + unfold emits, after_advance. fields.
      rewrite Hcur, Hsrc, substring_first. repeat split.
    + apply isAtEnd_true. unfold after_advance. fields.
      rewrite Hsrc, Hcur, length_append. simpl. lia.
  - change "/" with (String "/"%char EmptyString) at 1.
    erewrite match_char
      by (unfold after_advance; fields; rewrite Hsrc, Hcur;
          apply get_append_next).
    cbn [starts_with] in Hm. rewrite Hm.
    unfold emits, after_advance. fields.
    rewrite Hcur, Hsrc, ?substring_first, <- ?app_assoc.
    repeat split.
Qed.

(** A comment that runs to the end of the source. *)
Lemma comment_at_end_turn (s : Scanner) (pre : String.string) :
  source s = pre ++ "//" -> current s = String.length pre ->
  source (main_body s) = source s
  /\ tokens (main_body s) = tokens s
  /\ errors (main_body s) = errors s
  /\ line (main_body s) = line s
  /\ current (main_body s) = String.length (source s)
  /\ reads (main_body s)
     = (reads s ++ [String.length pre; String.length pre + 1])%list.
Proof.
  intros Hsrc Hcur.
  assert (Hg : String.get (current s) (source s) = Some "/"%char).
  { rewrite Hsrc, Hcur. apply get_append_at. }
  assert (Hmb : main_body s
                = set_current (current (after_advance s) + 1)
                    (log_reads [current (after_advance s)] (after_advance s))).
  { rewrite (main_body_slash _ Hg).
    change "/" with (String "/"%char EmptyString) at 1.
    erewrite match_char
      by (unfold after_advance; fields; rewrite Hsrc, Hcur;
          apply get_append_next).
    cbn [Ascii.eqb Bool.eqb andb].
    match goal with
    | |- while_ (budget ?st) _ _ ?st = _ =>
        assert (He : isAtEnd st = true)
    end.
    { apply isAtEnd_true. unfold after_advance. fields.
      rewrite Hsrc, Hcur, length_append. simpl. lia. }
    unfold budget. cbn [while_]. unfold comment_cond.
    now rewrite (peek_end _ He), He. }
  rewrite Hmb. unfold after_advance. fields. rewrite Hcur, <- app_assoc.
  repeat split. rewrite Hsrc, length_append. simpl. lia.
Qed.

(** ** The keyword table *)

Lemma keywords_hit (text : String.string) (ty : TokenType) :
  In (text, ty) KEYWORDS -> identifier_type text = ty.
Proof.
  unfold KEYWORDS. cbn [In]. intros H.
  repeat destruct H as [H|H]; try contradiction;
    injection H as <- <-; reflexivity.
Qed.

Lemma keywords_miss (text : String.string) :
  (forall ty, ~ In (text, ty) KEYWORDS) -> identifier_type text = IDENTIFIER.
Proof.
  intros H. unfold identifier_type.
  destruct (Map_get KEYWORDS text) as [ty|] eqn:Hget; [|reflexivity].
  exfalso. apply (H ty). revert Hget. unfold KEYWORDS. cbn [Map_get In].
  repeat match goal with
         | |- context [String.eqb ?k text] =>
             destruct (String.eqb_spec k text) as [<-|_];
               [intros [= <-]; tauto|]
         end.
  discriminate.
Qed.

Lemma run_length_full (p : ascii -> bool) (str : String.string) :
  all_chars p str = true -> run_length p str = String.length str.
Proof.
  intros H. rewrite <- (append_nil_r str) at 1.
  now apply run_length_append.
Qed.

(** C7: when the main loop dispatches on [!], [=], [<] or [>], it reads at
    most the one character that follows: when that character is [=] it is
    consumed and the two-character token is emitted, otherwise the
    one-character token is emitted and the next turn starts at the
    character that follows.  So [!=] gives one [BANG_EQUAL], and [!a]
    gives [BANG] and then the identifier. *)
Theorem operator_one_character_lookahead (s : Scanner)
    (pre rest : String.string) (c : ascii) (two one : TokenType) :
  source s = pre ++ String c rest ->
  current s = String.length pre ->
  In (c, two, one) equal_operators ->
  (starts_with "=" rest = true ->
   emits s (main_body s) (mkToken two (String c "=") LNull (line s))
     (String.length pre + 2))
  /\ (starts_with "=" rest = false ->
      emits s (main_body s) (mkToken one (String c "") LNull (line s))
        (String.length pre + 1))
  /\ reads (main_body s)
     = (reads s
        ++ String.length pre
           :: match rest with
              | EmptyString => []
              | String _ _ => [String.length pre + 1]
              end)%list
  /\ scan "!=" = [mkToken BANG_EQUAL "!=" LNull 1; eof_token 1]
  /\ scan "!a"
     = [mkToken BANG "!" LNull 1; mkToken IDENTIFIER "a" LNull 1; eof_token 1].
Proof.
  intros Hsrc Hcur Hop.
  destruct (operator_turn s pre rest c two one Hsrc Hcur Hop) as [Hemit Hreads].
  cbv zeta in Hemit.
  split; [|split; [|split; [exact Hreads|split; vm_compute; reflexivity]]].
  - intros Hm. now rewrite Hm in Hemit.
  - intros Hm. now rewrite Hm in Hemit.
Qed.

Lemma operator_one_character_lookahead_witness :
  emits (main_body (new_Scanner "a<=b"))
    (main_body (main_body (new_Scanner "a<=b")))
    (mkToken LESS_EQUAL "<=" LNull 1) 3.
Proof.
  destruct (operator_one_character_lookahead
              (main_body (new_Scanner "a<=b")) "a" "=b" "<"%char
              LESS_EQUAL LESS)
    as (Htwo & _);
    [reflexivity | reflexivity | right; right; left; reflexivity |].
  apply Htwo. reflexivity.
Defined.

(** C8: when the main loop meets a letter or underscore followed by a
    maximal run of letters, digits and underscores, [identifier()]
    consumes the whole run, looks the exact text up in [KEYWORDS], and
    emits one token with that text as lexeme and no literal: of the
    reserved type when the text is in the table, of type [IDENTIFIER]
    otherwise.  So [classic] gives one [IDENTIFIER] and [class] gives one
    [CLASS]. *)
Theorem identifier_extraction_and_keywords (s : Scanner)
    (pre rest : String.string) (c : ascii) (tail : String.string) :
  source s = pre ++ String c tail ++ rest ->
  current s = String.length pre ->
  is_alpha c = true ->
  all_chars is_alnum tail = true ->
  stops is_alnum rest = true ->
  emits s (main_body s)
    (mkToken (identifier_type (String c tail)) (String c tail) LNull (line s))
    (String.length pre + String.length (String c tail))
  /\ (forall ty,
        In (String c tail, ty) KEYWORDS -> identifier_type (String c tail) = ty)
  /\ ((forall ty, ~ In (String c tail, ty) KEYWORDS) ->
      identifier_type (String c tail) = IDENTIFIER)
  /\ scan "classic" = [mkToken IDENTIFIER "classic" LNull 1; eof_token 1]
  /\ scan "class" = [mkToken CLASS "class" LNull 1; eof_token 1].
Proof.
  intros Hsrc Hcur Hc Htail Hstop.
  split; [|split; [intros ty; apply keywords_hit
                  |split; [apply keywords_miss
                          |split; vm_compute; reflexivity]]].
  assert (Hg : String.get (current s) (source s) = Some c).
  { rewrite Hsrc, Hcur. apply get_append_at. }
  rewrite (main_body_alpha _ _ Hg Hc).
  destruct (identifier_spec (after_advance s)) as (L & _ & Heq). rewrite Heq.
  assert (Hend : identifier_end (source s) (String.length pre + 1)
                 = String.length pre + String.length (String c tail)).
  { unfold identifier_end. rewrite Hsrc.
    replace (String.length pre + 1) with (String.length pre + 1 + 0) by lia.
    replace (pre ++ String c tail ++ rest)
      with ((pre ++ String c "") ++ tail ++ rest)
      by (now rewrite append_assoc).
    replace (String.length pre + 1) with (String.length (pre ++ String c ""))
      by (rewrite length_append; reflexivity).
    rewrite drop_append_plus. cbn [drop].
    rewrite (run_length_append _ _ _ Htail Hstop), length_append.
    simpl. lia. }
  assert (Htext : substring (source s) (String.length pre)
                    (String.length pre + String.length (String c tail))
                  = String c tail).
  { rewrite Hsrc.
    change (String c tail ++ rest) with (String c tail ++ rest).
    now apply substring_append_at. }
  unfold emits, after_advance. fields. rewrite Hcur, Hend, Htext.
  repeat split.
Qed.

Lemma identifier_extraction_and_keywords_witness :
  emits (new_Scanner "while1 x") (main_body (new_Scanner "while1 x"))
    (mkToken IDENTIFIER "while1" LNull 1) 6.
Proof.
  destruct (identifier_extraction_and_keywords
              (new_Scanner "while1 x") "" " x" "w"%char "hile1")
    as (Hemit & _); try reflexivity.
  exact Hemit.
Defined.

(** C9: when the character the main loop consumes starts none of the
    lexemes, blanks or comments that [scanToken] recognises, the turn
    makes one report, at the current line, emits no token, and stops at
    the next character, where scanning resumes.  So [@] gives one report
    at line 1 and the token list is [EOF] alone. *)
Theorem unexpected_character_reported (s : Scanner)
    (pre rest : String.string) (c : ascii) :
  source s = pre ++ String c rest ->
  current s = String.length pre ->
  lexeme_start c = false ->
  reports s (main_body s) (line s, "Unexpected character.")
    (String.length pre + 1)
  /\ line (main_body s) = line s
  /\ errors (scanTokens_run (new_Scanner "@")) = [(1, "Unexpected character.")]
  /\ scan "@" = [eof_token 1].
Proof.
  intros Hsrc Hcur Hc.
  assert (Hg : String.get (current s) (source s) = Some c).
  { rewrite Hsrc, Hcur. apply get_append_at. }
  rewrite (main_body_unexpected _ _ Hg Hc).
  unfold reports, after_advance. fields. rewrite Hcur.
  repeat split.
Qed.

Lemma unexpected_character_reported_witness :
  reports (main_body (new_Scanner "a#b")) 
    (main_body (main_body (new_Scanner "a#b")))
    (1, "Unexpected character.") 2.
Proof.
  destruct (unexpected_character_reported
              (main_body (new_Scanner "a#b")) "a" "b" "#"%char)
    as (Hreport & _); try reflexivity.
  exact Hreport.
Defined.

(** C2: when the main loop meets a double quote and no other double quote
    follows in the source, the turn consumes the rest of the source,
    emits no token and makes exactly one report, at the line reached at
    the end of the source; the text of the report is the one written in
    [string()].  For the source made of a double quote and [abc] the scan
    makes that one report, at line 1, and returns [EOF] alone. *)
Theorem unterminated_string_reported (s : Scanner)
    (pre body : String.string) :
  source s = pre ++ DQUOTE ++ body ->
  current s = String.length pre ->
  all_chars (not_char "034") body = true ->
  reports s (main_body s) (line s + count_nl body, "unexpected character.")
    (String.length (source s))
  /\ line (main_body s) = line s + count_nl body
  /\ errors (scanTokens_run (new_Scanner (DQUOTE ++ "abc")))
     = [(1, "unexpected character.")]
  /\ scan (DQUOTE ++ "abc") = [eof_token 1].
Proof.
  intros Hsrc Hcur Hbody.
  assert (Hg : String.get (current s) (source s) = Some "034"%char).
  { rewrite Hsrc, Hcur. apply get_append_at. }
  rewrite (main_body_quote _ Hg).
  destruct (string_spec (after_advance s)) as (L & _ & Heq).
  { unfold after_advance. fields. pose proof (get_some_lt _ _ _ Hg). lia. }
  rewrite Heq. clear Heq.
  assert (Hdrop : drop (current (after_advance s)) (source (after_advance s))
                  = body).
  { unfold after_advance. fields. rewrite Hsrc, Hcur.
    replace (String.length pre + 1) with (String.length pre + 1 + 0) by lia.
    replace (pre ++ DQUOTE ++ body) with ((pre ++ DQUOTE) ++ body)
      by (now rewrite append_assoc).
    replace (String.length pre + 1) with (String.length (pre ++ DQUOTE))
      by (rewrite length_append; reflexivity).
    now rewrite drop_append_plus. }
  rewrite Hdrop, (run_length_full _ _ Hbody).
  rewrite (take_length_ge (String.length body) body) by lia.
  assert (Hlen : current (after_advance s) + String.length body
                 = String.length (source s)).
  { unfold after_advance. fields. rewrite Hsrc, Hcur, !length_append.
    simpl. lia. }
  rewrite Hlen.
  replace (drop (String.length (source s)) (source (after_advance s)))
    with EmptyString
    by (symmetry; apply drop_length_ge; unfold after_advance; fields; lia).
  unfold reports, after_advance. fields.
  split; [repeat split|split; [reflexivity|split; vm_compute; reflexivity]].
Qed.

Lemma unterminated_string_reported_witness :
  reports (main_body (new_Scanner ("x" ++ DQUOTE ++ "a" ++ LF ++ "b")))
    (main_body (main_body (new_Scanner ("x" ++ DQUOTE ++ "a" ++ LF ++ "b"))))
    (2, "unexpected character.") 5.
Proof.
  destruct (unterminated_string_reported
              (main_body (new_Scanner ("x" ++ DQUOTE ++ "a" ++ LF ++ "b")))
              "x" ("a" ++ LF ++ "b"))
    as (Hreport & _); try reflexivity.
  exact Hreport.
Defined.

(** Every index handed to [charAt] during a scan is an index of the
    source. *)
Lemma scan_reads_inside (src : String.string) :
  Forall (fun i => i < String.length src)
    (reads (scanTokens_run (new_Scanner src))).
Proof.
  destruct (scan_segmentation src) as (segs & L & _ & _ & HL & _ & _ & Hr & _).
  now rewrite Hr.
Qed.

(** C10: at or past the end of the source [peek] and [peekNext] return
    [NUL] without calling [charAt], and [match] (called with [=] or [/],
    never with [NUL]) returns [false] without calling it; inside the
    source [peek] reads the index under the cursor.  Over a whole scan
    every index read is an index of the source.  A source that ends in
    [!], [=], [<], [>] or [/] gets the one-character token for it, and one
    that ends in two slashes gets no token, with no index read other than
    those of the characters consumed. *)
Theorem lookahead_stays_inside_source :
  (forall s, isAtEnd s = true -> peek s = (NUL, s))
  /\ (forall s,
        isAtEnd s = false ->
        reads (snd (peek s)) = (reads s ++ [current s])%list
        /\ current s < String.length (source s))
  /\ (forall s,
        String.length (source s) <= current s + 1 -> peekNext s = (NUL, s))
  /\ (forall s expected,
        isAtEnd s = true -> expected <> NUL -> match_ expected s = (false, s))
  /\ (forall src,
        Forall (fun i => i < String.length src)
          (reads (scanTokens_run (new_Scanner src))))
  /\ (forall s pre c two one,
        source s = pre ++ String c "" -> current s = String.length pre ->
        In (c, two, one) equal_operators ->
        emits s (main_body s) (mkToken one (String c "") LNull (line s))
          (String.length (source s))
        /\ reads (main_body s) = (reads s ++ [String.length pre])%list)
  /\ (forall s pre,
        source s = pre ++ "/" -> current s = String.length pre ->
        emits s (main_body s) (mkToken SLASH "/" LNull (line s))
          (String.length (source s))
        /\ reads (main_body s) = (reads s ++ [String.length pre])%list)
  /\ (forall s pre,
        source s = pre ++ "//" -> current s = String.length pre ->
        tokens (main_body s) = tokens s
        /\ errors (main_body s) = errors s
        /\ current (main_body s) = String.length (source s)
        /\ reads (main_body s)
           = (reads s ++ [String.length pre; String.length pre + 1])%list).
Proof.
  split; [exact peek_end|].
  split.
  { intros s He. destruct (get_lt _ _ (proj1 (isAtEnd_false s) He)) as [c Hg].
    rewrite (peek_char _ _ Hg). split; [reflexivity|].
    now apply isAtEnd_false. }
  split; [exact peekNext_end|].
  split; [intros s expected; apply match_end|].
  split; [exact scan_reads_inside|].
  split; [|split].
  - intros s pre c two one Hsrc Hcur Hop.
    destruct (operator_turn s pre "" c two one Hsrc Hcur Hop) as [He Hr].
    cbn in He, Hr. split; [|exact Hr].
    replace (String.length (source s)) with (String.length pre + 1);
      [exact He|].
    rewrite Hsrc, length_append. reflexivity.
  - intros s pre Hsrc Hcur.
    destruct (slash_turn s pre "" Hsrc Hcur eq_refl) as [He Hr].
    split; [|exact Hr].
    replace (String.length (source s)) with (String.length pre + 1);
      [exact He|].
    rewrite Hsrc, length_append. reflexivity.
  - intros s pre Hsrc Hcur.
    destruct (comment_at_end_turn s pre Hsrc Hcur)
      as (_ & Ht & He & _ & Hc & Hr).
    auto.
Qed.

(** * Further properties of the scanner *)

(** ** Splitting the source at the cursor and after a run *)

Lemma take_drop (n : nat) (str : String.string) :
  take n str ++ drop n str = str.
Proof.
  revert str; induction n as [|n IH]; intros [|c str]; simpl; try reflexivity.
  now rewrite IH.
Qed.

Lemma source_at (s : Scanner) :
  current s < String.length (source s) ->
  exists pre c rest,
    source s = pre ++ String c rest /\ current s = String.length pre.
Proof.
  intros Hlt. destruct (get_lt _ _ Hlt) as [c Hg].
  exists (take (current s) (source s)), c, (drop (S (current s)) (source s)).
  split.
  - rewrite <- (drop_get _ _ _ Hg). symmetry. apply take_drop.
  - rewrite length_take. lia.
Qed.

Lemma run_split (p : ascii -> bool) (str : String.string) :
  exists run rest,
    str = run ++ rest /\ all_chars p run = true /\ stops p rest = true.
Proof.
  exists (take (run_length p str) str), (drop (run_length p str) str).
  split; [symmetry; apply take_drop|].
  split; [apply run_length_all|apply run_length_stops].
Qed.

Lemma stops_not_char (x : ascii) (rest : String.string) :
  stops (not_char x) rest = true ->
  rest = EmptyString \/ exists rest', rest = String x rest'.
Proof.
  destruct rest as [|c rest']; [now left|]. cbn [stops]. unfold not_char.
  rewrite negb_involutive. intros H. apply Ascii.eqb_eq in H. subst.
  right. now exists rest'.
Qed.

Lemma drop_after (pre mid rest : String.string) (n : nat) :
  n = String.length pre + String.length mid ->
  drop n (pre ++ mid ++ rest) = rest.
Proof.
  intros ->. rewrite <- append_assoc.
  replace (String.length pre + String.length mid)
    with (String.length (pre ++ mid) + 0)
    by (rewrite length_append; lia).
  now rewrite drop_append_plus.
Qed.

(** ** Punctuation, blanks and line feeds *)

Lemma main_body_punctuation (s : Scanner) (c : ascii) (ty : TokenType) :
  String.get (current s) (source s) = Some c ->
  In (c, ty) punctuation ->
  main_body s = addToken ty LNull (after_advance s).
Proof.
  intros Hg Hc. enter_branch Hg. clear Hg. intros st.
  unfold punctuation in Hc. cbn [In] in Hc.
  repeat destruct Hc as [Hc|Hc]; try contradiction;
    injection Hc as <- <-; reflexivity.
Qed.

Lemma main_body_blank (s : Scanner) (c : ascii) :
  String.get (current s) (source s) = Some c -> is_blank c = true ->
  main_body s = after_advance s.
Proof.
  intros Hg Hc. enter_branch Hg. clear Hg. intros st.
  unfold is_blank in Hc.
  apply orb_prop in Hc as [Hc|Hc]; [apply orb_prop in Hc as [Hc|Hc]|];
    apply Ascii.eqb_eq in Hc; subst c; reflexivity.
Qed.

Lemma main_body_newline (s : Scanner) :
  String.get (current s) (source s) = Some "010"%char ->
  main_body s = set_line (line (after_advance s) + 1) (after_advance s).
Proof. intros Hg. enter_branch Hg. reflexivity. Qed.

Lemma punctuation_turn (s : Scanner) (pre rest : String.string)
    (c : ascii) (ty : TokenType) :
  source s = pre ++ String c rest ->
  current s = String.length pre ->
  In (c, ty) punctuation ->
  emits s (main_body s) (mkToken ty (String c "") LNull (line s))
    (String.length pre + 1).
Proof.
  intros Hsrc Hcur Hin.
  assert (Hg : String.get (current s) (source s) = Some c).
  { rewrite Hsrc, Hcur. apply get_append_at. }
  rewrite (main_body_punctuation _ _ _ Hg Hin).
  unfold emits, after_advance. fields.
  rewrite Hcur, Hsrc, substring_first. repeat split.
Qed.

(** X1: each of the ten punctuation characters is a token on its own: the turn
    emits the token of its type with the character as lexeme and no
    literal, on the current line, and reads no other index. *)
Theorem punctuation_is_one_token (s : Scanner) (pre rest : String.string)
    (c : ascii) (ty : TokenType) :
  source s = pre ++ String c rest ->
  current s = String.length pre ->
  In (c, ty) punctuation ->
  emits s (main_body s) (mkToken ty (String c "") LNull (line s))
    (String.length pre + 1)
  /\ reads (main_body s) = (reads s ++ [String.length pre])%list.
Proof.
  intros Hsrc Hcur Hin.
  split; [exact (punctuation_turn s pre rest c ty Hsrc Hcur Hin)|].
  assert (Hg : String.get (current s) (source s) = Some c).
  { rewrite Hsrc, Hcur. apply get_append_at. }
  rewrite (main_body_punctuation _ _ _ Hg Hin).
  unfold after_advance. fields. now rewrite Hcur.
Qed.

Lemma punctuation_is_one_token_witness :
  emits (main_body (new_Scanner "a;b"))
    (main_body (main_body (new_Scanner "a;b")))
    (mkToken SEMICOLON ";" LNull 1) 2.
Proof.
  destruct (punctuation_is_one_token
              (main_body (new_Scanner "a;b")) "a" "b" ";"%char SEMICOLON)
    as (Hemit & _);
    [reflexivity | reflexivity | do 8 right; left; reflexivity |].
  exact Hemit.
Defined.

Lemma blank_not_newline (c : ascii) :
  is_blank c = true -> Ascii.eqb c "010" = false.
Proof.
  unfold is_blank. intros Hb.
  apply orb_prop in Hb as [Hb|Hb]; [apply orb_prop in Hb as [Hb|Hb]|];
    apply Ascii.eqb_eq in Hb; subst c; reflexivity.
Qed.

Lemma space_turn (s : Scanner) (pre rest : String.string) (c : ascii) :
  source s = pre ++ String c rest ->
  current s = String.length pre ->
  is_space c = true ->
  source (main_body s) = source s
  /\ tokens (main_body s) = tokens s
  /\ errors (main_body s) = errors s
  /\ current (main_body s) = String.length pre + 1
  /\ line (main_body s) = line s + (if Ascii.eqb c "010" then 1 else 0).
Proof.
  intros Hsrc Hcur Hc.
  assert (Hg : String.get (current s) (source s) = Some c).
  { rewrite Hsrc, Hcur. apply get_append_at. }
  unfold is_space in Hc. apply orb_prop in Hc as [Hb|Hn].
  - rewrite (main_body_blank _ _ Hg Hb), (blank_not_newline _ Hb).
    unfold after_advance. fields. rewrite Hcur. repeat split. lia.
  - apply Ascii.eqb_eq in Hn. subst c.
    rewrite (main_body_newline _ Hg).
    unfold after_advance. fields. rewrite Hcur. repeat split.
Qed.

(** X2: a space, carriage return or tab is consumed and leaves no trace; a
    line feed is consumed and adds one to the line counter.  Neither emits
    a token or makes a report. *)
Theorem blanks_and_newlines_are_skipped (s : Scanner)
    (pre rest : String.string) (c : ascii) :
  source s = pre ++ String c rest ->
  current s = String.length pre ->
  is_space c = true ->
  source (main_body s) = source s
  /\ tokens (main_body s) = tokens s
  /\ errors (main_body s) = errors s
  /\ current (main_body s) = String.length pre + 1
  /\ line (main_body s) = line s + (if Ascii.eqb c "010" then 1 else 0)
  /\ reads (main_body s) = (reads s ++ [String.length pre])%list.
Proof.
  intros Hsrc Hcur Hc.
  destruct (space_turn s pre rest c Hsrc Hcur Hc) as (H1 & H2 & H3 & H4 & H5).
  repeat split; auto.
  assert (Hg : String.get (current s) (source s) = Some c).
  { rewrite Hsrc, Hcur. apply get_append_at. }
  unfold is_space in Hc. apply orb_prop in Hc as [Hb|Hn].
  - rewrite (main_body_blank _ _ Hg Hb).
    unfold after_advance. fields. now rewrite Hcur.
  - apply Ascii.eqb_eq in Hn. subst c.
    rewrite (main_body_newline _ Hg).
    unfold after_advance. fields. now rewrite Hcur.
Qed.

Lemma blanks_and_newlines_are_skipped_witness :
  line (main_body (main_body (new_Scanner ("a" ++ LF ++ "b")))) = 2
  /\ tokens (main_body (main_body (new_Scanner ("a" ++ LF ++ "b"))))
     = tokens (main_body (new_Scanner ("a" ++ LF ++ "b"))).
Proof.
  destruct (blanks_and_newlines_are_skipped
              (main_body (new_Scanner ("a" ++ LF ++ "b"))) "a" "b" "010"%char)
    as (_ & Htok & _ & _ & Hline & _); try reflexivity.
  split; [exact Hline|exact Htok].
Defined.

(** ** Comments and the division slash *)

Lemma comment_turn (s : Scanner) (pre body rest : String.string) :
  source s = pre ++ "//" ++ body ++ rest ->
  current s = String.length pre ->
  all_chars (not_char "010") body = true ->
  stops (not_char "010") rest = true ->
  source (main_body s) = source s
  /\ tokens (main_body s) = tokens s
  /\ errors (main_body s) = errors s
  /\ line (main_body s) = line s
  /\ start (main_body s) = current s
  /\ current (main_body s) = String.length pre + 2 + String.length body.
Proof.
  intros Hsrc Hcur Hbody Hstop.
  assert (Hg : String.get (current s) (source s) = Some "/"%char).
  { rewrite Hsrc, Hcur. apply get_append_at. }
  rewrite (main_body_slash _ Hg).
  change "/" with (String "/"%char EmptyString) at 1.
  erewrite match_char
    by (unfold after_advance; fields; rewrite Hsrc, Hcur;
        apply get_append_next).
  cbn [Ascii.eqb Bool.eqb andb].
  match goal with
  | |- context [while_ (budget ?st) comment_cond advance_body ?st] =>
      destruct (comment_loop st) as (L & _ & Heq & _); rewrite Heq; clear Heq
  end.
  unfold loop_result, after_advance. fields. rewrite Hcur.
  assert (Hdrop : drop (String.length pre + 1 + 1) (source s) = body ++ rest).
  { rewrite Hsrc. apply (drop_after pre "//" (body ++ rest)). simpl. lia. }
  rewrite Hdrop, (run_length_append _ _ _ Hbody Hstop).
  repeat split; lia.
Qed.

(** X3: a slash followed by a slash opens a comment: the turn consumes the two
    slashes and everything up to, and not including, the next line feed
    (or up to the end of the source), and emits and reports nothing.  A
    slash followed by anything else, or by nothing, is a [SLASH] token. *)
Theorem slash_is_comment_or_division (s : Scanner)
    (pre rest : String.string) :
  source s = pre ++ String "/" rest ->
  current s = String.length pre ->
  (starts_with "/" rest = false ->
   emits s (main_body s) (mkToken SLASH "/" LNull (line s))
     (String.length pre + 1))
  /\ (forall body rest',
        rest = String "/" (body ++ rest') ->
        all_chars (not_char "010") body = true ->
        stops (not_char "010") rest' = true ->
        tokens (main_body s) = tokens s
        /\ errors (main_body s) = errors s
        /\ line (main_body s) = line s
        /\ current (main_body s) = String.length pre + 2 + String.length body
        /\ drop (current (main_body s)) (source s) = rest').
Proof.
  intros Hsrc Hcur. split.
  - intros Hm. now destruct (slash_turn s pre rest Hsrc Hcur Hm).
  - intros body rest' -> Hbody Hstop.
    destruct (comment_turn s pre body rest' Hsrc Hcur Hbody Hstop)
      as (_ & Ht & He & Hl & _ & Hc).
    repeat split; auto.
    rewrite Hc, Hsrc.
    apply (drop_after pre ("//" ++ body) rest').
    rewrite length_append. simpl. lia.
Qed.

Lemma slash_is_comment_or_division_witness :
  tokens (main_body (new_Scanner ("// hello" ++ LF ++ "1"))) = []
  /\ current (main_body (new_Scanner ("// hello" ++ LF ++ "1"))) = 8.
Proof.
  destruct (slash_is_comment_or_division
              (new_Scanner ("// hello" ++ LF ++ "1")) ""
              ("/ hello" ++ LF ++ "1"))
    as (_ & Hcomment); [reflexivity | reflexivity |].
  destruct (Hcomment " hello" (LF ++ "1"))
    as (Ht & _ & _ & Hc & _); [reflexivity | reflexivity | reflexivity |].
  split; [exact Ht|exact Hc].
Defined.

(** ** String literals *)

Lemma string_turn_closed (s : Scanner) (pre body rest : String.string) :
  source s = pre ++ DQUOTE ++ body ++ DQUOTE ++ rest ->
  current s = String.length pre ->
  all_chars (not_char "034") body = true ->
  source (main_body s) = source s
  /\ tokens (main_body s)
     = (tokens s
        ++ [mkToken STRING (DQUOTE ++ body ++ DQUOTE) (LString body)
              (line s + count_nl body)])%list
  /\ errors (main_body s) = errors s
  /\ start (main_body s) = current s
  /\ current (main_body s) = String.length pre + String.length body + 2
  /\ line (main_body s) = line s + count_nl body.
Proof.
  intros Hsrc Hcur Hbody.
  assert (Hg : String.get (current s) (source s) = Some "034"%char).
  { rewrite Hsrc, Hcur. apply get_append_at. }
  rewrite (main_body_quote _ Hg).
  destruct (string_spec (after_advance s)) as (L & _ & Heq).
  { unfold after_advance. fields. pose proof (get_some_lt _ _ _ Hg). lia. }
  rewrite Heq. clear Heq.
  assert (Hdrop : drop (current (after_advance s)) (source (after_advance s))
                  = body ++ DQUOTE ++ rest).
  { unfold after_advance. fields. rewrite Hsrc, Hcur.
    apply (drop_after pre DQUOTE). reflexivity. }
  rewrite Hdrop.
  rewrite (run_length_append _ body (DQUOTE ++ rest) Hbody eq_refl).
  rewrite take_append.
  assert (Hend : drop (current (after_advance s) + String.length body)
                   (source (after_advance s))
                 = DQUOTE ++ rest).
  { unfold after_advance. fields. rewrite Hsrc, Hcur.
    apply (drop_after pre (DQUOTE ++ body)).
    rewrite length_append. simpl. lia. }
  rewrite Hend. cbn [append DQUOTE].
  assert (Hlex : substring (source s) (String.length pre)
                   (String.length pre + 1 + String.length body + 1)
                 = DQUOTE ++ body ++ DQUOTE).
  { rewrite Hsrc.
    replace (pre ++ DQUOTE ++ body ++ DQUOTE ++ rest)
      with (pre ++ (DQUOTE ++ body ++ DQUOTE) ++ rest)
      by (now rewrite !append_assoc).
    apply substring_append_at. rewrite !length_append. simpl. lia. }
  assert (Hlit : substring (source s) (String.length pre + 1)
                   (String.length pre + 1 + String.length body)
                 = body).
  { rewrite Hsrc.
    replace (pre ++ DQUOTE ++ body ++ DQUOTE ++ rest)
      with ((pre ++ DQUOTE) ++ body ++ DQUOTE ++ rest)
      by (now rewrite !append_assoc).
    replace (String.length pre + 1) with (String.length (pre ++ DQUOTE))
      by (rewrite length_append; reflexivity).
    now apply substring_append_at. }
  unfold after_advance. fields. rewrite Hcur, Hlex, Hlit.
  repeat split. lia.
Qed.

(** X4: a string literal that is closed: the turn consumes both quotes and
    what is between them (line feeds included, a backslash being a
    character like any other), and emits one [STRING] token whose lexeme
    has the quotes and whose literal is the text between them; the line
    counter, and the line of the token, grow by the line feeds of that
    text. *)
Theorem closed_string_is_one_token (s : Scanner)
    (pre body rest : String.string) :
  source s = pre ++ DQUOTE ++ body ++ DQUOTE ++ rest ->
  current s = String.length pre ->
  all_chars (not_char "034") body = true ->
  tokens (main_body s)
  = (tokens s
     ++ [mkToken STRING (DQUOTE ++ body ++ DQUOTE) (LString body)
           (line s + count_nl body)])%list
  /\ errors (main_body s) = errors s
  /\ current (main_body s) = String.length pre + String.length body + 2
  /\ line (main_body s) = line s + count_nl body.
Proof.
  intros Hsrc Hcur Hbody.
  destruct (string_turn_closed s pre body rest Hsrc Hcur Hbody)
    as (_ & Ht & He & _ & Hc & Hl).
  auto.
Qed.

Lemma closed_string_is_one_token_witness :
  tokens (main_body (new_Scanner (DQUOTE ++ "a\n" ++ LF ++ DQUOTE ++ ";")))
  = [mkToken STRING (DQUOTE ++ "a\n" ++ LF ++ DQUOTE)
       (LString ("a\n" ++ LF)) 2].
Proof.
  destruct (closed_string_is_one_token
              (new_Scanner (DQUOTE ++ "a\n" ++ LF ++ DQUOTE ++ ";"))
              "" ("a\n" ++ LF) ";")
    as (Ht & _); [reflexivity | reflexivity | reflexivity |].
  exact Ht.
Defined.

Lemma string_turn_open (s : Scanner) (pre body : String.string) :
  source s = pre ++ DQUOTE ++ body ->
  current s = String.length pre ->
  all_chars (not_char "034") body = true ->
  source (main_body s) = source s
  /\ tokens (main_body s) = tokens s
  /\ errors (main_body s)
     = (errors s ++ [(line s + count_nl body, unterminated_message)])%list
  /\ start (main_body s) = current s
  /\ current (main_body s) = String.length (source s)
  /\ line (main_body s) = line s + count_nl body.
Proof.
  intros Hsrc Hcur Hbody.
  assert (Hg : String.get (current s) (source s) = Some "034"%char).
  { rewrite Hsrc, Hcur. apply get_append_at. }
  rewrite (main_body_quote _ Hg).
  destruct (string_spec (after_advance s)) as (L & _ & Heq).
  { unfold after_advance. fields. pose proof (get_some_lt _ _ _ Hg). lia. }
  rewrite Heq. clear Heq.
  assert (Hdrop : drop (current (after_advance s)) (source (after_advance s))
                  = body).
  { unfold after_advance. fields. rewrite Hsrc, Hcur.
    apply (drop_after pre DQUOTE body). reflexivity. }
  rewrite Hdrop, (run_length_full _ _ Hbody).
  rewrite (take_length_ge (String.length body) body) by lia.
  assert (Hlen : current (after_advance s) + String.length body
                 = String.length (source s)).
  { unfold after_advance. fields. rewrite Hsrc, Hcur, !length_append.
    simpl. lia. }
  rewrite Hlen.
  replace (drop (String.length (source s)) (source (after_advance s)))
    with EmptyString
    by (symmetry; apply drop_length_ge; unfold after_advance; fields; lia).
  unfold after_advance, unterminated_message. fields. rewrite Hcur.
  repeat split.
Qed.

(** ** Numbers and identifiers, from the text under the cursor *)

Lemma fraction_follows_true (rest : String.string) :
  fraction_follows rest = true ->
  exists f r, rest = String "." (String f r) /\ is_digit f = true.
Proof.
  destruct rest as [|p [|f r]]; [discriminate| |].
  - destruct p as [[] [] [] [] [] [] [] []]; discriminate.
  - destruct p as [[] [] [] [] [] [] [] []]; try discriminate.
    intros H. exists f, r. split; [reflexivity|exact H].
Qed.

Lemma number_turn (s : Scanner) (pre ds rest : String.string) :
  source s = pre ++ ds ++ rest ->
  current s = String.length pre ->
  ds <> EmptyString ->
  all_chars is_digit ds = true ->
  stops is_digit rest = true ->
  exists text,
    number_shape text
    /\ emits s (main_body s)
         (mkToken NUMBER text (LNumber (parseFloat text)) (line s))
         (String.length pre + String.length text).
Proof.
  intros Hsrc Hcur Hne Hds Hstop.
  destruct (all_chars_cons _ _ Hne Hds) as (d0 & ds' & Eds & Hd0 & Hds').
  assert (Hsrc0 : source s = pre ++ String d0 (ds' ++ rest))
    by (now rewrite Hsrc, Eds).
  pose proof (main_body_number s pre d0 (ds' ++ rest) Hsrc0 Hcur Hd0) as Hnum.
  cbv zeta in Hnum.
  assert (Hend : number_end (source s) (String.length pre + 1)
                 = if fraction_follows rest
                   then String.length pre + String.length ds + 1
                        + run_length is_digit (drop 1 rest)
                   else String.length pre + String.length ds).
  { rewrite Hsrc0.
    replace (pre ++ String d0 (ds' ++ rest))
      with ((pre ++ String d0 "") ++ ds' ++ rest)
      by (now rewrite append_assoc).
    replace (String.length pre + 1)
      with (String.length (pre ++ String d0 "")) at 1
      by (rewrite length_append; reflexivity).
    rewrite (number_end_digits _ _ _ Hds' Hstop), fraction_match.
    rewrite length_append, Eds. cbn [String.length].
    destruct (fraction_follows rest); lia. }
  rewrite Hend in Hnum. clear Hend.
  destruct (fraction_follows rest) eqn:Hfrac.
  - destruct (fraction_follows_true _ Hfrac) as (f & r & -> & Hf).
    clear Hfrac. rename Hf into Hfrac. cbn [drop] in Hnum.
    destruct (run_split is_digit (String f r)) as (fs & rest' & Efs & Hfs & Hst).
    assert (Hfne : fs <> EmptyString).
    { intros ->. cbn [append] in Efs. subst rest'.
      cbn [stops] in Hst. now rewrite Hfrac in Hst. }
    rewrite Efs, (run_length_append _ _ _ Hfs Hst) in Hnum.
    exists (ds ++ "." ++ fs). split.
    + exists ds. split; [exact Hne|]. split; [exact Hds|].
      right. exists fs. auto.
    + assert (Htext : substring (source s) (String.length pre)
                        (String.length pre + String.length ds + 1
                         + String.length fs)
                      = ds ++ "." ++ fs).
      { rewrite Hsrc, Efs.
        replace (pre ++ ds ++ String "." (fs ++ rest'))
          with (pre ++ (ds ++ "." ++ fs) ++ rest')
          by (now rewrite !append_assoc).
        apply substring_append_at. rewrite !length_append. simpl. lia. }
      rewrite Htext in Hnum.
      replace (String.length pre + String.length (ds ++ "." ++ fs))
        with (String.length pre + String.length ds + 1 + String.length fs)
        by (rewrite !length_append; simpl; lia).
      exact Hnum.
  - exists ds. split.
    + exists ds. auto.
    + assert (Htext : substring (source s) (String.length pre)
                        (String.length pre + String.length ds)
                      = ds).
      { rewrite Hsrc. now apply substring_append_at. }
      rewrite Htext in Hnum. exact Hnum.
Qed.

Lemma identifier_turn (s : Scanner) (pre rest : String.string) (c : ascii)
    (tail : String.string) :
  source s = pre ++ String c tail ++ rest ->
  current s = String.length pre ->
  is_alpha c = true ->
  all_chars is_alnum tail = true ->
  stops is_alnum rest = true ->
  emits s (main_body s)
    (mkToken (identifier_type (String c tail)) (String c tail) LNull (line s))
    (String.length pre + String.length (String c tail)).
Proof.
  intros Hsrc Hcur Hc Htail Hstop.
  assert (Hg : String.get (current s) (source s) = Some c).
  { rewrite Hsrc, Hcur. apply get_append_at. }
  rewrite (main_body_alpha _ _ Hg Hc).
  destruct (identifier_spec (after_advance s)) as (L & _ & Heq). rewrite Heq.
  assert (Hend : identifier_end (source s) (String.length pre + 1)
                 = String.length pre + String.length (String c tail)).
  { unfold identifier_end. rewrite Hsrc.
    change (pre ++ String c tail ++ rest)
      with (pre ++ String c "" ++ tail ++ rest).
    rewrite (drop_after pre (String c "") (tail ++ rest)) by reflexivity.
    rewrite (run_length_append _ _ _ Htail Hstop). simpl. lia. }
  assert (Htext : substring (source s) (String.length pre)
                    (String.length pre + String.length (String c tail))
                  = String c tail).
  { rewrite Hsrc. now apply substring_append_at. }
  unfold emits, after_advance. fields. rewrite Hcur, Hend, Htext.
  repeat split.
Qed.

(** A reserved type is given only to its own spelling. *)
Lemma keywords_spelling (text : String.string) (ty : TokenType) :
  Map_get KEYWORDS text = Some ty ->
  fixed_spelling ty = Some text /\ token_agrees (mkToken ty text LNull 0).
Proof.
  unfold KEYWORDS. cbn [Map_get].
  repeat match goal with
         | |- context [String.eqb ?k text] =>
             destruct (String.eqb_spec k text) as [<-|_];
               [intros [= <-]; split; [reflexivity|split; reflexivity]|]
         end.
  discriminate.
Qed.

(** ** What one turn of the main loop can do *)

Lemma main_body_frame (s : Scanner) :
  current s < String.length (source s) ->
  source (main_body s) = source s /\ start (main_body s) = current s.
Proof.
  intros Hlt.
  destruct (main_body_step s Hlt) as (g & L & _ & _ & _ & _ & Heq & _).
  rewrite Heq. cbn [source start log_reads].
  destruct (seg_kind g); cbn [apply_kind]; fields; split; reflexivity.
Qed.

Ltac in_list := cbn [In]; repeat first [left; reflexivity | right].

(** Closes the case of a turn that emitted a token without changing the
    line, given [emits] for it; the agreement of the token is left. *)
Ltac added_token He :=
  let Et := fresh "Et" in
  let El := fresh "El" in
  let Ee := fresh "Ee" in
  destruct He as (_ & Et & _ & El & Ee);
  right; left; eexists;
  split; [exact Et|];
  split; [exact Ee|];
  split; [|split; [try discriminate|cbn [tline]; symmetry; exact El]].

Lemma identifier_token_agrees (c : ascii) (tail : String.string) (ln : nat) :
  is_alpha c = true -> all_chars is_alnum tail = true ->
  token_agrees
    (mkToken (identifier_type (String c tail)) (String c tail) LNull ln).
Proof.
  intros Hc Htail. unfold identifier_type.
  destruct (Map_get KEYWORDS (String c tail)) as [ty|] eqn:Hget.
  - destruct (keywords_spelling _ _ Hget) as [_ Hagree].
    revert Hagree. unfold token_agrees. cbn [type lexeme literal]. auto.
  - unfold token_agrees. cbn [type lexeme literal].
    split; [exists c, tail; auto|auto].
Qed.

Lemma main_body_outcome (s : Scanner) :
  current s < String.length (source s) -> turn_outcome s (main_body s).
Proof.
  intros Hlt.
  destruct (main_body_line s Hlt) as (Hlo & Hhi & Hline).
  destruct (main_body_frame s Hlt) as (Hsame & Hstart).
  destruct (source_at s Hlt) as (pre & c & rest & Hsrc & Hcur).
  unfold turn_outcome.
  split; [exact Hsame|]. split; [exact Hstart|]. split; [lia|].
  split; [lia|]. split; [lia|].
  assert (Hpunct : forall ty, In (c, ty) punctuation ->
            fixed_spelling ty = Some (String c "") ->
            ty <> EOF -> ty <> STRING -> ty <> NUMBER -> ty <> IDENTIFIER ->
            exists t,
              tokens (main_body s) = (tokens s ++ [t])%list
              /\ errors (main_body s) = errors s
              /\ token_agrees t /\ type t <> EOF
              /\ tline t = line (main_body s)).
  { intros ty Hin Hsp H1 H2 H3 H4.
    pose proof (punctuation_turn s pre rest c ty Hsrc Hcur Hin)
      as (_ & Et & _ & El & Ee).
    eexists. split; [exact Et|]. split; [exact Ee|].
    split; [|split; [exact H1|cbn [tline]; now rewrite El]].
    unfold token_agrees. cbn [type lexeme literal].
    destruct ty; try congruence; auto. }
  assert (Hop : forall two one, In (c, two, one) equal_operators ->
            fixed_spelling two = Some (String c "=") ->
            fixed_spelling one = Some (String c "") ->
            exists t,
              tokens (main_body s) = (tokens s ++ [t])%list
              /\ errors (main_body s) = errors s
              /\ token_agrees t /\ type t <> EOF
              /\ tline t = line (main_body s)).
  { intros two one Hin Htwo Hone.
    pose proof (operator_turn s pre rest c two one Hsrc Hcur Hin)
      as ((_ & Et & _ & El & Ee) & _).
    eexists. split; [exact Et|]. split; [exact Ee|].
    cbn [tline type]. rewrite El.
    unfold token_agrees. cbn [type lexeme literal].
    unfold equal_operators in Hin. cbn [In] in Hin.
    repeat destruct Hin as [Hin|Hin]; try contradiction;
      injection Hin as <- <- <-;
      destruct (starts_with "=" rest);
      (split; [split; reflexivity|split; [discriminate|reflexivity]]). }
  destruct (lexeme_start c) eqn:Hls.
  2:{ (* an unexpected character *)
    assert (Hg : String.get (current s) (source s) = Some c).
    { rewrite Hsrc, Hcur. apply get_append_at. }
    right. right. rewrite (main_body_unexpected _ _ Hg Hls).
    unfold after_advance, unexpected_message. fields.
    split; [reflexivity|]. left. split; reflexivity. }
  unfold lexeme_start in Hls.
  apply orb_prop in Hls as [Hls|Halpha];
    [apply orb_prop in Hls as [Hlist|Hdigit]|].
  - apply existsb_exists in Hlist as (x & Hin & Hx).
    apply Ascii.eqb_eq in Hx. subst x. cbn [In] in Hin.
    repeat destruct Hin as [Hin|Hin]; try contradiction; subst c.
    all: try (right; left; apply (Hpunct _ ltac:(in_list));
              [reflexivity|discriminate..]).
    all: try (right; left; apply (Hop _ _ ltac:(in_list)); reflexivity).
    + (* a slash *)
      destruct (starts_with "/" rest) eqn:Hm.
      * destruct rest as [|d rest1]; [discriminate|].
        cbn [starts_with] in Hm. apply Ascii.eqb_eq in Hm. subst d.
        destruct (run_split (not_char "010") rest1)
          as (body & rest' & -> & Hbody & Hstop).
        destruct (comment_turn s pre body rest' Hsrc Hcur Hbody Hstop)
          as (_ & Et & Ee & _).
        left. split; assumption.
      * pose proof (slash_turn s pre rest Hsrc Hcur Hm) as [He _].
        added_token He. split; reflexivity.
    + left. destruct (space_turn s pre rest " "%char Hsrc Hcur eq_refl)
        as (_ & Et & Ee & _). split; assumption.
    + left. destruct (space_turn s pre rest "013"%char Hsrc Hcur eq_refl)
        as (_ & Et & Ee & _). split; assumption.
    + left. destruct (space_turn s pre rest "009"%char Hsrc Hcur eq_refl)
        as (_ & Et & Ee & _). split; assumption.
    + left. destruct (space_turn s pre rest "010"%char Hsrc Hcur eq_refl)
        as (_ & Et & Ee & _). split; assumption.
    + (* a double quote *)
      destruct (run_split (not_char "034") rest)
        as (body & rest2 & -> & Hbody & Hstop).
      destruct (stops_not_char _ _ Hstop) as [->|(rest' & ->)].
      * rewrite append_nil_r in Hsrc.
        destruct (string_turn_open s pre body Hsrc Hcur Hbody)
          as (_ & Et & Ee & _ & Ec & El).
        right. right. split; [exact Et|]. right.
        split; [now rewrite El|exact Ec].
      * destruct (string_turn_closed s pre body rest' Hsrc Hcur Hbody)
          as (_ & Et & Ee & _ & Ec & El).
        right. left. eexists. split; [exact Et|]. split; [exact Ee|].
        split; [|split; [discriminate|cbn [tline]; now rewrite El]].
        exists body. auto.
  - (* a digit *)
    destruct (run_split is_digit rest) as (ds' & rest2 & -> & Hds & Hstop).
    destruct (number_turn s pre (String c ds') rest2)
      as (text & Hshape & He); auto; try discriminate.
    { cbn [all_chars]. now rewrite Hdigit. }
    added_token He. split; [exact Hshape|reflexivity].
  - (* a letter or an underscore *)
    destruct (run_split is_alnum rest) as (tail & rest2 & -> & Htail & Hstop).
    pose proof (identifier_turn s pre rest2 c tail Hsrc Hcur Halpha Htail Hstop)
      as He.
    added_token He.
    + now apply identifier_token_agrees.
    + apply identifier_type_not_EOF.
Qed.

(** X5: each turn of the main loop sets [start] to the old cursor, consumes at
    least one character and stays inside the source, never lowers the
    line counter, leaves the source alone, and only appends to the token
    list and to the reports: at most one item in all, so never a token and
    a report together. *)
Theorem turn_appends_at_most_one_item (s : Scanner) :
  current s < String.length (source s) ->
  source (main_body s) = source s
  /\ start (main_body s) = current s
  /\ current s < current (main_body s)
  /\ current (main_body s) <= String.length (source s)
  /\ line s <= line (main_body s)
  /\ exists ts es,
       tokens (main_body s) = (tokens s ++ ts)%list
       /\ errors (main_body s) = (errors s ++ es)%list
       /\ List.length ts + List.length es <= 1.
Proof.
  intros Hlt.
  destruct (main_body_outcome s Hlt) as (H1 & H2 & H3 & H4 & H5 & Hadd).
  repeat (split; [assumption|]).
  destruct Hadd as [[Et Ee]|[(t & Et & Ee & _)|(Et & [[Ee _]|[Ee _]])]].
  - exists [], []. rewrite !app_nil_r. auto.
  - exists [t], []. rewrite app_nil_r. auto.
  - eexists [], [_]. rewrite app_nil_r. split; [exact Et|]. split; [exact Ee|].
    simpl. lia.
  - eexists [], [_]. rewrite app_nil_r. split; [exact Et|]. split; [exact Ee|].
    simpl. lia.
Qed.

Lemma turn_appends_at_most_one_item_witness :
  start (main_body (main_body (new_Scanner "a=b"))) = 1
  /\ current (main_body (main_body (new_Scanner "a=b"))) <= 3.
Proof.
  destruct (turn_appends_at_most_one_item (main_body (new_Scanner "a=b")))
    as (_ & Hstart & _ & Hcur & _).
  - vm_compute. lia.
  - split; [exact Hstart|exact Hcur].
Defined.

(** ** Invariants of the whole scan *)

Lemma main_loop_preserves (I : Scanner -> Prop) :
  (forall s, I s -> current s < String.length (source s) -> I (main_body s)) ->
  forall fuel s, I s -> I (while_ fuel main_cond main_body s).
Proof.
  intros Hstep. induction fuel as [|fuel IH]; intros s Hs; [exact Hs|].
  cbn [while_]. unfold main_cond.
  destruct (isAtEnd s) eqn:He; cbn [negb]; [exact Hs|].
  apply IH, Hstep; [exact Hs|now apply isAtEnd_false].
Qed.

(** X6: in every token a scan returns, the type, the lexeme and the literal
    fit together: a punctuation, operator or reserved-word token has the
    one spelling of its type and no literal; a [STRING] has a lexeme in
    double quotes, with no double quote between them, and that text as
    literal; a [NUMBER] has digits, or digits, a point and digits, and
    [parseFloat] of them as literal; an [IDENTIFIER] starts with a letter
    or underscore, goes on with letters, digits and underscores, is not a
    key of [KEYWORDS], and has no literal; [EOF] has the empty lexeme. *)
Theorem scanned_tokens_agree (src : String.string) :
  Forall token_agrees (scan src).
Proof.
  unfold scan, scanTokens, scanTokens_run. cbn [tokens push_token].
  apply Forall_app. split.
  - apply (main_loop_preserves (fun s => Forall token_agrees (tokens s))).
    + intros s Hs Hlt.
      destruct (main_body_outcome s Hlt) as (_ & _ & _ & _ & _ & Hadd).
      destruct Hadd as [[Et _]|[(t & Et & _ & Ht & _)|(Et & _)]];
        rewrite Et; auto.
      apply Forall_app. split; [exact Hs|]. constructor; [exact Ht|constructor].
    + constructor.
  - constructor; [|constructor]. split; reflexivity.
Qed.

Lemma reports_shape_upper (es : list (nat * String.string)) :
  Forall (fun r => snd r = unexpected_message) es -> reports_shape es.
Proof.
  intros H. exists es, []. rewrite app_nil_r. auto.
Qed.

(** The state of the reports while the main loop runs: every line is
    between 1 and the current line; and either only unexpected characters
    were reported, or the cursor is at the end of the source. *)
Lemma reports_invariant (src : String.string) (fuel : nat) :
  let r := while_ fuel main_cond main_body (new_Scanner src) in
  1 <= line r
  /\ Forall (fun e => 1 <= fst e <= line r) (errors r)
  /\ reports_shape (errors r).
Proof.
  set (I := fun s : Scanner =>
         1 <= line s
         /\ Forall (fun e => 1 <= fst e <= line s) (errors s)
         /\ (Forall (fun e => snd e = unexpected_message) (errors s)
             \/ (current s = String.length (source s)
                 /\ reports_shape (errors s)))).
  assert (HI : I (while_ fuel main_cond main_body (new_Scanner src))).
  { apply main_loop_preserves; [|unfold I; cbn; auto].
    intros s (Hl & Hlines & Hshape) Hlt.
    destruct (main_body_outcome s Hlt) as (Hsrc & _ & _ & _ & Hmono & Hadd).
    assert (Hlines' : Forall (fun e => 1 <= fst e <= line (main_body s))
                        (errors s)).
    { eapply Forall_impl; [|exact Hlines]. cbv beta. intros e He. lia. }
    destruct Hshape as [Hup|[Hend _]]; [|exfalso; lia].
    unfold I. split; [lia|].
    destruct Hadd as [[_ Ee]|[(t & _ & Ee & _)|(_ & [[Ee _]|[Ee Hc]])]];
      rewrite Ee.
    - auto.
    - auto.
    - split.
      + apply Forall_app. split; [exact Hlines'|].
        constructor; [cbv beta; cbn [fst]; lia|constructor].
      + left. apply Forall_app. split; [exact Hup|].
        constructor; [reflexivity|constructor].
    - split.
      + apply Forall_app. split; [exact Hlines'|].
        constructor; [cbv beta; cbn [fst]; lia|constructor].
      + right. rewrite Hsrc. split; [exact Hc|].
        exists (errors s), [(line (main_body s), unterminated_message)].
        split; [reflexivity|]. split; [exact Hup|]. right. eauto. }
  destruct HI as (H1 & H2 & [Hup|[_ Hshape]]); cbv zeta.
  - split; [exact H1|]. split; [exact H2|]. now apply reports_shape_upper.
  - auto.
Qed.

(** X7: the reports of a scan: each carries a line between 1 and the last line
    of the source; each has the text of [scanToken]'s report, except that
    the last one may have the text of [string()]'s.  So a scan reports at
    most one unterminated string, and nothing after it. *)
Theorem reports_are_unexpected_then_one_unterminated (src : String.string) :
  reports_shape (errors (scanTokens_run (new_Scanner src)))
  /\ Forall (fun e => 1 <= fst e <= 1 + count_nl src)
       (errors (scanTokens_run (new_Scanner src))).
Proof.
  pose proof (reports_invariant src (budget (new_Scanner src)))
    as (_ & Hlines & Hshape).
  destruct (scan_segmentation src) as (_ & _ & _ & _ & _ & _ & _ & _ & _ & Hl).
  unfold scanTokens_run in *. cbn [errors line push_token] in *.
  split; [exact Hshape|].
  rewrite Hl in Hlines. unfold line_after in Hlines.
  now rewrite substring_full in Hlines.
Qed.

(** ** How much a scan can return *)

Lemma segments_count (segs : list Segment) (a b : nat) :
  chained a segs b ->
  List.length (seg_tokens segs) + List.length (seg_errors segs) + a <= b.
Proof.
  revert a; induction segs as [|g segs IH]; cbn [chained]; intros a.
  - intros ->. simpl. lia.
  - intros (_ & Hlt & Hch). specialize (IH _ Hch).
    cbn [seg_tokens seg_errors]. destruct (seg_kind g); simpl; lia.
Qed.

(** X8: a scan returns at most one token or report per character of the
    source, and the final [EOF]: the tokens and the reports together are
    at most the length of the source plus one. *)
Theorem tokens_and_reports_bounded_by_length (src : String.string) :
  List.length (scan src)
  + List.length (errors (scanTokens_run (new_Scanner src)))
  <= String.length src + 1.
Proof.
  destruct (scan_segmentation src)
    as (segs & L & Hch & _ & _ & Hscan & Herr & _).
  rewrite Hscan, Herr, length_app. cbn [List.length].
  pose proof (segments_count _ _ _ Hch). lia.
Qed.

(** X9: with or without reports, every character of the source is accounted
    for: the source is tiled, left to right, by the lexemes of the emitted
    tokens, the skipped blanks, line feeds and comments, and the spans that
    were reported; the tokens and the reports of the scan are those of the
    segments, in order, and joining the segments gives back the source. *)
Theorem source_is_tiled_even_with_reports (src : String.string) :
  exists segs,
    chained 0 segs (String.length src)
    /\ Forall (seg_ok src) segs
    /\ scan src
       = (seg_tokens segs ++ [eof_token (1 + count_nl src)])%list
    /\ errors (scanTokens_run (new_Scanner src)) = seg_errors segs
    /\ join (map (seg_text src) segs) = src.
Proof.
  destruct (scan_segmentation src)
    as (segs & L & Hch & Hall & _ & Hscan & Herr & _).
  exists segs. repeat split; auto.
  - rewrite Hscan. unfold line_after. now rewrite substring_full.
  - rewrite (chained_join src segs 0 (String.length src) Hch) by lia.
    apply substring_full.
Qed.

(** ** Calling [scanTokens] again *)

Lemma scan_final_source (src : String.string) :
  source (scanTokens_run (new_Scanner src)) = src.
Proof.
  unfold scanTokens_run. cbn [source push_token].
  apply (main_loop_preserves (fun s => source s = src)); [|reflexivity].
  intros s Hs Hlt. destruct (main_body_frame s Hlt) as [H _]. congruence.
Qed.

Lemma scanTokens_run_at_end (s : Scanner) :
  isAtEnd s = true ->
  scanTokens_run s = push_token (eof_token (line s)) s.
Proof.
  intros He. unfold scanTokens_run, budget. cbn [while_].
  unfold main_cond. rewrite He. reflexivity.
Qed.

(** X10: [scanTokens] does not reset the scanner: called a second time on the
    same object it finds the cursor at the end, scans nothing, and pushes
    one more [EOF] onto the token list, which then ends with two; the
    reports and the cursor stay as they were. *)
Theorem second_scanTokens_appends_another_EOF (src : String.string) :
  scanTokens (scanTokens_run (new_Scanner src))
  = (scan src ++ [eof_token (1 + count_nl src)])%list
  /\ errors (scanTokens_run (scanTokens_run (new_Scanner src)))
     = errors (scanTokens_run (new_Scanner src))
  /\ current (scanTokens_run (scanTokens_run (new_Scanner src)))
     = String.length src.
Proof.
  destruct (scan_segmentation src)
    as (_ & _ & _ & _ & _ & _ & _ & _ & Hcur & Hline).
  pose proof (scan_final_source src) as Hsrc.
  unfold scanTokens.
  rewrite (scanTokens_run_at_end (scanTokens_run (new_Scanner src)))
    by (apply isAtEnd_true; rewrite Hsrc, Hcur; lia).
  cbn [tokens errors current push_token].
  rewrite Hline, Hcur. unfold line_after. rewrite substring_full.
  repeat split.
Qed.

(** ** Sources made of blanks and line feeds *)

Lemma all_chars_append (p : ascii -> bool) (a b : String.string) :
  all_chars p (a ++ b) = all_chars p a && all_chars p b.
Proof.
  induction a as [|c a IH]; [reflexivity|].
  cbn [append all_chars]. rewrite IH. now rewrite andb_assoc.
Qed.

(** X11: a source made only of spaces, carriage returns, tabs and line feeds
    gives no token but [EOF], on the line after the last line feed, and no
    report. *)
Theorem blank_source_gives_only_EOF (src : String.string) :
  all_chars is_space src = true ->
  scan src = [eof_token (1 + count_nl src)]
  /\ errors (scanTokens_run (new_Scanner src)) = [].
Proof.
  intros Hall.
  assert (HI : let r := while_ (budget (new_Scanner src)) main_cond main_body
                          (new_Scanner src) in
               source r = src /\ tokens r = [] /\ errors r = []).
  { apply (main_loop_preserves
             (fun s => source s = src /\ tokens s = [] /\ errors s = []));
      [|cbn; auto].
    intros s (Hs & Ht & He) Hlt.
    destruct (source_at s Hlt) as (pre & c & rest & Hsrc & Hcur).
    assert (Hc : is_space c = true).
    { rewrite <- Hs, Hsrc, all_chars_append in Hall. cbn [all_chars] in Hall.
      apply andb_prop in Hall as [_ Hall].
      now apply andb_prop in Hall as [Hall _]. }
    destruct (space_turn s pre rest c Hsrc Hcur Hc) as (E1 & E2 & E3 & _).
    rewrite E1, E2, E3. auto. }
  cbv zeta in HI. destruct HI as (_ & Ht & He).
  destruct (scan_segmentation src)
    as (_ & _ & _ & _ & _ & _ & _ & _ & _ & Hline).
  unfold scan, scanTokens. unfold scanTokens_run in *.
  cbn [tokens errors line push_token] in *.
  rewrite Ht, He, Hline. unfold line_after. rewrite substring_full.
  split; reflexivity.
Qed.

Lemma blank_source_gives_only_EOF_witness :
  scan (" " ++ TAB ++ LF ++ CR ++ LF) = [eof_token 3].
Proof.
  destruct (blank_source_gives_only_EOF (" " ++ TAB ++ LF ++ CR ++ LF))
    as [Hscan _]; [reflexivity|].
  exact Hscan.
Defined.

(** ** Character classes and the keyword table *)

(** X12: on a one-character string [isDigit] holds exactly for the codes of
    [0] to [9], and [isAlpha] exactly for those of [a] to [z], [A] to [Z]
    and the underscore; neither holds for the [NUL] that [peek] returns at
    the end of the source, nor for the empty string. *)
Theorem character_classes (c : ascii) :
  (isDigit (String c "") = true
   <-> 48 <= nat_of_ascii c /\ nat_of_ascii c <= 57)
  /\ (isAlpha (String c "") = true
      <-> (97 <= nat_of_ascii c /\ nat_of_ascii c <= 122)
          \/ (65 <= nat_of_ascii c /\ nat_of_ascii c <= 90)
          \/ nat_of_ascii c = 95)
  /\ (isAlphaNumeric (String c "") = true
      <-> isAlpha (String c "") = true \/ isDigit (String c "") = true)
  /\ isDigit NUL = false /\ isAlpha NUL = false
  /\ isDigit "" = false /\ isAlpha "" = false.
Proof.
  split; [|split; [|split; [|repeat split]]].
  - rewrite isDigit_char. unfold is_digit.
    rewrite andb_true_iff, !Nat.leb_le. tauto.
  - rewrite isAlpha_char. unfold is_alpha.
    rewrite !orb_true_iff, !andb_true_iff, !Nat.leb_le, Nat.eqb_eq. tauto.
  - unfold isAlphaNumeric. now rewrite orb_true_iff.
Qed.

(** X13: the keyword table maps sixteen distinct spellings to sixteen distinct
    reserved types: a lookup succeeds exactly on the entries, a text other
    than the sixteen spellings gets [IDENTIFIER], and a reserved type
    determines the text it was given to. *)
Theorem keyword_lookup_round_trip :
  (forall text ty, Map_get KEYWORDS text = Some ty <-> In (text, ty) KEYWORDS)
  /\ (forall text,
        identifier_type text = IDENTIFIER <-> Map_get KEYWORDS text = None)
  /\ (forall a b,
        identifier_type a = identifier_type b ->
        identifier_type a <> IDENTIFIER -> a = b)
  /\ NoDup (map fst KEYWORDS)
  /\ List.length KEYWORDS = 16.
Proof.
  assert (Hget : forall text ty,
            Map_get KEYWORDS text = Some ty -> In (text, ty) KEYWORDS).
  { intros text ty. unfold KEYWORDS. cbn [Map_get].
    repeat match goal with
           | |- context [String.eqb ?k text] =>
               destruct (String.eqb_spec k text) as [<-|_];
                 [intros [= <-]; in_list|]
           end.
    discriminate. }
  assert (Hin : forall text ty,
            In (text, ty) KEYWORDS -> Map_get KEYWORDS text = Some ty).
  { intros text ty. unfold KEYWORDS. cbn [In]. intros H.
    repeat destruct H as [H|H]; try contradiction;
      injection H as <- <-; reflexivity. }
  assert (Hid : forall text,
            identifier_type text = IDENTIFIER -> Map_get KEYWORDS text = None).
  { intros text. unfold identifier_type.
    destruct (Map_get KEYWORDS text) as [ty|] eqn:Hg; [|reflexivity].
    intros ->. destruct (keywords_spelling _ _ Hg) as [Hsp _]. discriminate. }
  split; [intros text ty; split; [apply Hget|apply Hin]|].
  split.
  { intros text. split; [apply Hid|].
    unfold identifier_type. now intros ->. }
  split.
  { intros a b Heq Hne. unfold identifier_type in *.
    destruct (Map_get KEYWORDS a) as [ta|] eqn:Ha; [|congruence].
    destruct (Map_get KEYWORDS b) as [tb|] eqn:Hb; [|congruence].
    subst tb.
    destruct (keywords_spelling _ _ Ha) as [Sa _].
    destruct (keywords_spelling _ _ Hb) as [Sb _]. congruence. }
  split; [|reflexivity].
  unfold KEYWORDS. cbn [map fst].
  repeat (constructor; [cbn [In]; intros H;
                        repeat destruct H as [H|H]; discriminate || contradiction|]).
  constructor.
Qed.
